(** * homebridge-kwikset-halo: the login flow and the request helper

    A shallow embedding of [src/kwikset.ts].  The module talks to three
    outside parties: the local disk (through Node's [fs]), the identity
    provider (through the Amplify / Cognito SDK) and the person who types
    the one-time code into the local web form.  Their answers are inputs
    of the model; what the module itself does with them (which calls it
    makes, in which order, what it writes and what it keeps in memory) is
    embedded statement by statement.

    JavaScript strings are sequences of 16-bit code units, files are
    sequences of bytes; both are lists of [N]. *)

From Stdlib Require Import NArith ZArith List String Ascii Lia Bool.
From stdpp Require Import base option list gmap.
Import ListNotations.

Open Scope N_scope.

Ltac Zify.zify_post_hook ::= Z.to_euclidean_division_equations.

(* ================================================================= *)
(** ** JavaScript strings *)

Abbreviation jsstring := (list N).
Abbreviation bytes := (list N).

(** An ASCII literal of the source as a JavaScript string. *)
Definition lit (s : string) : jsstring :=
  map N_of_ascii (list_ascii_of_string s).

Definition code_unit (c : N) : Prop := c < 0x10000.
Definition wf_jsstring (s : jsstring) : Prop := Forall code_unit s.

Definition is_lead (c : N) : bool := (0xD800 <=? c) && (c <=? 0xDBFF).
Definition is_trail (c : N) : bool := (0xDC00 <=? c) && (c <=? 0xDFFF).

(** [String(n)] for a non-negative integer [n]. *)
Fixpoint uint_to_jsstring (u : Decimal.uint) : jsstring :=
  match u with
  | Decimal.Nil => []
  | Decimal.D0 r => 0x30 :: uint_to_jsstring r
  | Decimal.D1 r => 0x31 :: uint_to_jsstring r
  | Decimal.D2 r => 0x32 :: uint_to_jsstring r
  | Decimal.D3 r => 0x33 :: uint_to_jsstring r
  | Decimal.D4 r => 0x34 :: uint_to_jsstring r
  | Decimal.D5 r => 0x35 :: uint_to_jsstring r
  | Decimal.D6 r => 0x36 :: uint_to_jsstring r
  | Decimal.D7 r => 0x37 :: uint_to_jsstring r
  | Decimal.D8 r => 0x38 :: uint_to_jsstring r
  | Decimal.D9 r => 0x39 :: uint_to_jsstring r
  end.

Definition N_to_jsstring (n : N) : jsstring := uint_to_jsstring (N.to_uint n).

(** [`${v}`] for a value that is a string or [undefined]. *)
Definition template (v : option jsstring) : jsstring :=
  match v with
  | Some s => s
  | None => lit "undefined"
  end.

(* ================================================================= *)
(** ** JSON: values, [JSON.stringify] and [JSON.parse] *)

(** What [JSON.parse] can return.  A number is kept exactly, as
    [(-1)^neg * mant * 10^exp10]. *)
#[local] Set Warnings "-register-all".
Inductive jsval : Type :=
  | JNull
  | JBool (b : bool)
  | JNum (neg : bool) (mant : N) (exp10 : Z)
  | JStr (s : jsstring)
  | JArr (l : list jsval)
  | JObj (members : list (jsstring * jsval)).

(** The [Credentials] type of the source. *)
Record Credentials : Type := mkCredentials {
  idToken : jsstring;
  accessToken : jsstring;
  refreshToken : jsstring
}.

Definition hex_digit (n : N) : N := if n <? 10 then 0x30 + n else 0x57 + n.

(** [\uXXXX], four lower-case hexadecimal digits. *)
Definition UnicodeEscape (c : N) : jsstring :=
  [0x5C; 0x75; hex_digit ((c / 4096) mod 16); hex_digit ((c / 256) mod 16);
   hex_digit ((c / 16) mod 16); hex_digit (c mod 16)].

Definition quote_unit (c : N) : jsstring :=
  if c =? 0x08 then lit "\b"
  else if c =? 0x09 then lit "\t"
  else if c =? 0x0A then lit "\n"
  else if c =? 0x0C then lit "\f"
  else if c =? 0x0D then lit "\r"
  else if c =? 0x22 then [0x5C; 0x22]
  else if c =? 0x5C then [0x5C; 0x5C]
  else if (c <? 0x20) || is_lead c || is_trail c then UnicodeEscape c
  else [c].

(** The body of ECMAScript's QuoteJSONString (ES2019 and later, Node 12
    and later): the string is read code point by code point, a surrogate
    pair is copied and a lone surrogate is escaped. *)
Fixpoint quote_units (s : jsstring) : jsstring :=
  match s with
  | [] => []
  | c :: rest =>
      match rest with
      | d :: rest' =>
          if is_lead c && is_trail d then c :: d :: quote_units rest'
          else quote_unit c ++ quote_units rest
      | [] => quote_unit c
      end
  end.

Definition QuoteJSONString (s : jsstring) : jsstring :=
  0x22 :: quote_units s ++ [0x22].

(** [JSON.stringify(creds)] for [creds : Credentials | null]: the three
    own properties in creation order, no white space. *)
Definition JSON_stringify (creds : option Credentials) : jsstring :=
  match creds with
  | None => lit "null"
  | Some c =>
      lit "{" ++ QuoteJSONString (lit "idToken") ++ lit ":"
        ++ QuoteJSONString (idToken c)
        ++ lit "," ++ QuoteJSONString (lit "accessToken") ++ lit ":"
        ++ QuoteJSONString (accessToken c)
        ++ lit "," ++ QuoteJSONString (lit "refreshToken") ++ lit ":"
        ++ QuoteJSONString (refreshToken c)
        ++ lit "}"
  end.

Definition is_ws (c : N) : bool :=
  (c =? 0x20) || (c =? 0x09) || (c =? 0x0A) || (c =? 0x0D).

Fixpoint skip_ws (s : jsstring) : jsstring :=
  match s with
  | c :: r => if is_ws c then skip_ws r else s
  | [] => []
  end.

Definition hex_value (c : N) : option N :=
  if (0x30 <=? c) && (c <=? 0x39) then Some (c - 0x30)
  else if (0x61 <=? c) && (c <=? 0x66) then Some (c - 0x57)
  else if (0x41 <=? c) && (c <=? 0x46) then Some (c - 0x37)
  else None.

Definition unescape (e : N) : option N :=
  if e =? 0x22 then Some 0x22
  else if e =? 0x5C then Some 0x5C
  else if e =? 0x2F then Some 0x2F
  else if e =? 0x62 then Some 0x08
  else if e =? 0x66 then Some 0x0C
  else if e =? 0x6E then Some 0x0A
  else if e =? 0x72 then Some 0x0D
  else if e =? 0x74 then Some 0x09
  else None.

(** The characters of a JSON string, read after its opening quote up to
    and including the closing one. *)
Fixpoint parse_chars (s : jsstring) : option (jsstring * jsstring) :=
  match s with
  | [] => None
  | c :: r =>
      if c =? 0x22 then Some ([], r)
      else if c =? 0x5C then
        match r with
        | [] => None
        | e :: r1 =>
            if e =? 0x75 then
              match r1 with
              | h1 :: h2 :: h3 :: h4 :: r2 =>
                  a ← hex_value h1; b ← hex_value h2;
                  c ← hex_value h3; d ← hex_value h4;
                  '(t, rest) ← parse_chars r2;
                  Some ((a * 4096 + b * 256 + c * 16 + d) :: t, rest)
              | _ => None
              end
            else
              u ← unescape e;
              '(t, rest) ← parse_chars r1;
              Some (u :: t, rest)
        end
      else if c <? 0x20 then None
      else '(t, rest) ← parse_chars r; Some (c :: t, rest)
  end.

Definition is_digit (c : N) : bool := (0x30 <=? c) && (c <=? 0x39).

(** The longest prefix of decimal digits, as digit values. *)
Fixpoint take_digits (s : jsstring) : list N * jsstring :=
  match s with
  | c :: r =>
      if is_digit c
      then let '(ds, rest) := take_digits r in ((c - 0x30) :: ds, rest)
      else ([], s)
  | [] => ([], [])
  end.

Definition digits_value (ds : list N) : N :=
  fold_left (fun acc d => acc * 10 + d) ds 0.

Definition parse_exponent (s : jsstring) : option (Z * jsstring) :=
  match s with
  | e :: r =>
      if (e =? 0x65) || (e =? 0x45) then
        let '(sign, r1) :=
          match r with
          | sg :: r' =>
              if sg =? 0x2D then (true, r')
              else if sg =? 0x2B then (false, r')
              else (false, r)
          | [] => (false, r)
          end in
        match take_digits r1 with
        | ([], _) => None
        | (ds, rest) =>
            let v := Z.of_N (digits_value ds) in
            Some (if sign then (- v)%Z else v, rest)
        end
      else Some (0%Z, s)
  | [] => Some (0%Z, s)
  end.

Definition parse_fraction (s : jsstring) : option (list N * jsstring) :=
  match s with
  | p :: r =>
      if p =? 0x2E then
        match take_digits r with
        | ([], _) => None
        | (ds, rest) => Some (ds, rest)
        end
      else Some ([], s)
  | [] => Some ([], s)
  end.

(** A JSON number: an optional minus sign; a single zero, or a digit
    from 1 to 9 followed by any digits; an optional fraction (a point and
    one digit or more); an optional exponent (e or E, an optional sign,
    one digit or more). *)
Definition parse_number (s : jsstring) : option (jsval * jsstring) :=
  let '(neg, s1) :=
    match s with
    | m :: r => if m =? 0x2D then (true, r) else (false, s)
    | [] => (false, s)
    end in
  '(int, s2) ←
    match s1 with
    | d :: r =>
        if d =? 0x30 then Some ([0], r)
        else if is_digit d then Some (take_digits s1)
        else None
    | [] => None
    end;
  '(frac, s3) ← parse_fraction s2;
  '(e, s4) ← parse_exponent s3;
  Some (JNum neg (digits_value (int ++ frac))
             (e - Z.of_nat (length frac))%Z, s4).

Fixpoint strip_prefix (p s : jsstring) : option jsstring :=
  match p, s with
  | [], _ => Some s
  | a :: p', b :: s' => if a =? b then strip_prefix p' s' else None
  | _ :: _, [] => None
  end.

Definition parse_literal (s : jsstring) : option (jsval * jsstring) :=
  match strip_prefix (lit "null") s with
  | Some r => Some (JNull, r)
  | None =>
      match strip_prefix (lit "true") s with
      | Some r => Some (JBool true, r)
      | None =>
          match strip_prefix (lit "false") s with
          | Some r => Some (JBool false, r)
          | None => parse_number s
          end
      end
  end.

(** A JSON value with the white space before it, then the members of an
    object and the elements of an array.  A call passes on one unit of
    fuel less; [JSON_parse] below gives enough of it, whatever the text
    ([JSON_parse_any_fuel]). *)
Fixpoint parse_value (fuel : nat) (s : jsstring) : option (jsval * jsstring) :=
  match fuel with
  | O => None
  | S fuel =>
      match skip_ws s with
      | [] => None
      | c :: r =>
          if c =? 0x7B then
            match skip_ws r with
            | c' :: r' =>
                if c' =? 0x7D then Some (JObj [], r')
                else '(ms, rest) ← parse_members fuel r; Some (JObj ms, rest)
            | [] => None
            end
          else if c =? 0x5B then
            match skip_ws r with
            | c' :: r' =>
                if c' =? 0x5D then Some (JArr [], r')
                else '(vs, rest) ← parse_elements fuel r; Some (JArr vs, rest)
            | [] => None
            end
          else if c =? 0x22 then
            '(str, rest) ← parse_chars r; Some (JStr str, rest)
          else parse_literal (c :: r)
      end
  end
with parse_members (fuel : nat) (s : jsstring)
  : option (list (jsstring * jsval) * jsstring) :=
  match fuel with
  | O => None
  | S fuel =>
      match skip_ws s with
      | q :: r =>
          if q =? 0x22 then
            '(k, r1) ← parse_chars r;
            match skip_ws r1 with
            | colon :: r2 =>
                if colon =? 0x3A then
                  '(v, r3) ← parse_value fuel r2;
                  match skip_ws r3 with
                  | d :: r4 =>
                      if d =? 0x2C then
                        '(ms, r5) ← parse_members fuel r4;
                        Some ((k, v) :: ms, r5)
                      else if d =? 0x7D then Some ([(k, v)], r4)
                      else None
                  | [] => None
                  end
                else None
            | [] => None
            end
          else None
      | [] => None
      end
  end
with parse_elements (fuel : nat) (s : jsstring)
  : option (list jsval * jsstring) :=
  match fuel with
  | O => None
  | S fuel =>
      '(v, r1) ← parse_value fuel s;
      match skip_ws r1 with
      | d :: r2 =>
          if d =? 0x2C then
            '(vs, r3) ← parse_elements fuel r2; Some (v :: vs, r3)
          else if d =? 0x5D then Some ([v], r2)
          else None
      | [] => None
      end
  end.

(** [JSON.parse(text)] without reviver; [None] is the SyntaxError it
    throws. *)
Definition JSON_parse (text : jsstring) : option jsval :=
  '(v, rest) ← parse_value (2 * length text + 2) text;
  match skip_ws rest with
  | [] => Some v
  | _ :: _ => None
  end.

(** [v.name] for a parsed value [v] that is not [null]; [None] is
    [undefined].  An object created by [JSON.parse] has the members of
    the text as own properties, the last one winning among duplicates;
    the names read by this program are no property of a string, a number,
    a boolean or an array. *)
Fixpoint lookup_member (name : jsstring) (ms : list (jsstring * jsval))
  : option jsval :=
  match ms with
  | [] => None
  | (k, v) :: ms' =>
      match lookup_member name ms' with
      | Some v' => Some v'
      | None => if decide (k = name) then Some v else None
      end
  end.

Definition get_property (v : jsval) (name : jsstring) : option jsval :=
  match v with
  | JObj ms => lookup_member name ms
  | _ => None
  end.

(** ToBoolean.  A number literal denotes zero when all its digits are
    zero, or when it is so small that it rounds to zero as a double
    (at most 2^-1075, half of the least subnormal). *)
Definition number_is_zero (mant : N) (exp10 : Z) : bool :=
  (mant =? 0)
  || ((exp10 <? 0)%Z && (mant * 2 ^ 1075 <=? 10 ^ Z.to_N (- exp10))).

Definition truthy (v : option jsval) : bool :=
  match v with
  | None => false
  | Some JNull => false
  | Some (JBool b) => b
  | Some (JNum _ mant exp10) => negb (number_is_zero mant exp10)
  | Some (JStr s) => negb (bool_decide (s = []))
  | Some (JArr _) => true
  | Some (JObj _) => true
  end.

(* ================================================================= *)
(** ** Text files: UTF-8 as Node writes and reads it *)

Definition utf8_of_code_point (cp : N) : bytes :=
  if cp <? 0x80 then [cp]
  else if cp <? 0x800 then [0xC0 + cp / 64; 0x80 + cp mod 64]
  else if cp <? 0x10000 then
    [0xE0 + cp / 4096; 0x80 + (cp / 64) mod 64; 0x80 + cp mod 64]
  else
    [0xF0 + cp / 262144; 0x80 + (cp / 4096) mod 64;
     0x80 + (cp / 64) mod 64; 0x80 + cp mod 64].

(** A code unit on its own: a lone surrogate is written as U+FFFD. *)
Definition utf8_of_unit (c : N) : bytes :=
  if is_lead c || is_trail c then [0xEF; 0xBF; 0xBD]
  else utf8_of_code_point c.

Fixpoint utf8_encode (s : jsstring) : bytes :=
  match s with
  | [] => []
  | c :: rest =>
      match rest with
      | d :: rest' =>
          if is_lead c && is_trail d
          then utf8_of_code_point
                 (0x10000 + (c - 0xD800) * 1024 + (d - 0xDC00))
                 ++ utf8_encode rest'
          else utf8_of_unit c ++ utf8_encode rest
      | [] => utf8_of_unit c
      end
  end.

Definition utf16_of_code_point (cp : N) : jsstring :=
  if cp <? 0x10000 then [cp]
  else [0xD800 + (cp - 0x10000) / 1024; 0xDC00 + (cp - 0x10000) mod 1024].

(** A multi-byte sequence under way: how many continuation bytes are
    still needed, the bits read so far, and the range allowed for the
    next byte. *)
Record pending : Type := mkPending {
  needed : nat;
  seen : N;
  lower : N;
  upper : N
}.

Definition decode_lead (b : N) : jsstring * option pending :=
  if b <? 0x80 then ([b], None)
  else if (0xC2 <=? b) && (b <=? 0xDF)
  then ([], Some (mkPending 1 (b - 0xC0) 0x80 0xBF))
  else if (0xE0 <=? b) && (b <=? 0xEF)
  then ([], Some (mkPending 2 (b - 0xE0)
                    (if b =? 0xE0 then 0xA0 else 0x80)
                    (if b =? 0xED then 0x9F else 0xBF)))
  else if (0xF0 <=? b) && (b <=? 0xF4)
  then ([], Some (mkPending 3 (b - 0xF0)
                    (if b =? 0xF0 then 0x90 else 0x80)
                    (if b =? 0xF4 then 0x8F else 0xBF)))
  else ([0xFFFD], None).

(** Decoding with replacement: an ill-formed sequence gives U+FFFD and
    the byte that ended it is read again as the start of the next one. *)
Fixpoint utf8_decode_from (st : option pending) (bs : bytes) : jsstring :=
  match bs with
  | [] =>
      match st with
      | None => []
      | Some _ => [0xFFFD]
      end
  | b :: rest =>
      match st with
      | None =>
          let '(out, st') := decode_lead b in
          out ++ utf8_decode_from st' rest
      | Some p =>
          if (lower p <=? b) && (b <=? upper p) then
            let cp := seen p * 64 + (b - 0x80) in
            match needed p with
            | S (S n) =>
                utf8_decode_from (Some (mkPending (S n) cp 0x80 0xBF)) rest
            | _ => utf16_of_code_point cp ++ utf8_decode_from None rest
            end
          else
            let '(out, st') := decode_lead b in
            0xFFFD :: out ++ utf8_decode_from st' rest
      end
  end.

Definition utf8_decode (bs : bytes) : jsstring := utf8_decode_from None bs.

(** The regular files of the disk, by path. *)
Abbreviation filesystem := (gmap jsstring bytes).

Definition existsSync (fs : filesystem) (path : jsstring) : bool :=
  bool_decide (is_Some (fs !! path)).

(** [fs.readFileSync(path, 'utf8')]; [None] is the error it throws when
    there is no such file. *)
Definition readFileSync (fs : filesystem) (path : jsstring) : option jsstring :=
  utf8_decode <$> fs !! path.

(** [fs.writeFileSync(path, data)] for a string [data]. *)
Definition writeFileSync (fs : filesystem) (path data : jsstring) : filesystem :=
  <[path := utf8_encode data]> fs.

(* ================================================================= *)
(** ** The process: memory, disk, and what it does to the outside *)

Inductive level : Type := Debug | Info | Warn | Error.

(** The calls the module makes on the outside world, in order:
    - [Log]: [log.debug], [log.info], [log.warn], [log.error];
    - [AmplifyConfigure]: [Amplify.configure] (lines 88-95);
    - [StoredSession]: the user built from the stored tokens and asked
      for its session (lines 49-74);
    - [SignIn]: [Auth.signIn] (line 111);
    - [SendCustomChallengeAnswer]: lines 118 and 152;
    - [CurrentAuthenticatedUser]: lines 157 and 172;
    - [Listen]: [app.listen] (line 143);
    - [AwaitCode]: [mfaCodeSignal.once('code', ...)] in a promise that is
      awaited (lines 149-150);
    - [Redirect]: [res.redirect] in the handler of [/submitmfa];
    - [CloseAfter]: [setTimeout] of [server?.close()] (lines 134-136);
    - [WriteFile]: [fs.writeFileSync] (line 173);
    - [UnhandledRejection]: an exception in the handler of the code
      event, outside its [try] (line 152). *)
Inductive event : Type :=
  | Log (l : level) (msg : jsstring)
  | AmplifyConfigure (region userPoolId userPoolWebClientId flow : jsstring)
  | StoredSession (email : jsstring) (idTok accessTok refreshTok : option jsval)
  | SignIn (email password : jsstring)
  | SendCustomChallengeAnswer (answer : jsstring)
  | CurrentAuthenticatedUser
  | Listen (port : N)
  | AwaitCode
  | Redirect (location : jsstring)
  | CloseAfter (ms : N)
  | WriteFile (path data : jsstring)
  | UnhandledRejection (err : jsstring).

(** [mem_idToken] is the module-level [let idToken: string | undefined]. *)
Record process : Type := mkProcess {
  mem_idToken : option jsstring;
  disk : filesystem;
  trace : list event
}.

(** How an [async] function stands once nothing more can happen: its
    promise is fulfilled, rejected with an error (given by its text), or
    still waiting. *)
Inductive outcome (A : Type) : Type :=
  | Returned (a : A)
  | Threw (err : jsstring)
  | Pending.
Arguments Returned {A} a.
Arguments Threw {A} err.
Arguments Pending {A}.

Definition M (A : Type) : Type := process -> outcome A * process.

#[global] Instance M_ret : MRet M := fun A a p => (Returned a, p).

#[global] Instance M_bind : MBind M := fun A B f m p =>
  match m p with
  | (Returned a, p') => f a p'
  | (Threw err, p') => (Threw err, p')
  | (Pending, p') => (Pending, p')
  end.

Definition throw {A : Type} (err : jsstring) : M A := fun p => (Threw err, p).
Definition suspend {A : Type} : M A := fun p => (Pending, p).

Definition emit (e : event) : M unit := fun p =>
  (Returned (), mkProcess (mem_idToken p) (disk p) (trace p ++ [e])).

Definition log (l : level) (msg : jsstring) : M unit := emit (Log l msg).

Definition set_idToken (v : option jsstring) : M unit := fun p =>
  (Returned (), mkProcess v (disk p) (trace p)).

(** What a promise of the SDK settles to. *)
Inductive sdk (A : Type) : Type :=
  | Resolves (a : A)
  | Rejects (err : jsstring).
Arguments Resolves {A} a.
Arguments Rejects {A} err.

Definition await {A : Type} (r : sdk A) : M A :=
  match r with
  | Resolves a => mret a
  | Rejects err => throw err
  end.

(* ================================================================= *)
(** ** The identity provider and the person at the web form *)

(** What [user.getSession] hands to its callback. *)
Inductive session_result : Type :=
  | SessionError
  | Session (idToken_jwtToken accessToken_jwtToken refreshToken_token : jsstring).

Record CognitoUser : Type := mkUser {
  challengeName : option jsstring;
  getSession : session_result
}.

(** One post of the form to [/submitmfa], made while the flow waits for a
    code: the field [code] of the body, what the call that submits the
    answer settles to (line 152) and what [Auth.currentAuthenticatedUser]
    settles to after it (line 157). *)
Record Submission : Type := mkSubmission {
  code : option jsstring;
  verify_answer : sdk unit;
  authenticated_user : sdk CognitoUser
}.

(** What the outside answers during one run: [ip.address()], the user
    the SDK builds from stored tokens (the constructors may throw), the
    password sign-in, the request to send a code (line 118), the codes
    posted, and [Auth.currentAuthenticatedUser] after the loop. *)
Record World : Type := mkWorld {
  ip_address : jsstring;
  stored_user :
    jsstring -> option jsval -> option jsval -> option jsval -> sdk CognitoUser;
  Auth_signIn : jsstring -> jsstring -> sdk CognitoUser;
  generate_code : sdk unit;
  submissions : list Submission;
  final_user : sdk CognitoUser
}.

(** The constants of [./const]; the file is not among the sources. *)
Record Constants : Type := mkConstants {
  COGNITO_AWS_REGION : jsstring;
  COGNITO_USER_POOL_ID : jsstring;
  COGNITO_USER_POOL_CLIENT : jsstring;
  API_HOST : jsstring;
  API_USER_AGENT : jsstring
}.

Record Config : Type := mkConfig {
  email : jsstring;
  password : jsstring;
  mfaPort : N
}.

Record Api : Type := mkApi {
  storagePath : jsstring
}.

(* ================================================================= *)
(** ** [kwikset.ts] *)

Definition getCredentialsFromSession (user : CognitoUser) : option Credentials :=
  match getSession user with
  | SessionError => None
  | Session i a r => Some (mkCredentials i a r)
  end.

Definition logInWithStoredCreds (world : World) (config : Config)
    (idToken accessToken refreshToken : option jsval) : M (option Credentials) :=
  emit (StoredSession (email config) idToken accessToken refreshToken) ;;
  user ← await (stored_user world (email config) idToken accessToken refreshToken);
  mret (getCredentialsFromSession user).

(** Lines 81-84: [savedCreds], [None] when it stays [undefined]. *)
Definition load_savedCreds (kwiksetSavePath : jsstring) : M (option jsval) :=
  fun p =>
    if existsSync (disk p) kwiksetSavePath then
      match readFileSync (disk p) kwiksetSavePath with
      | Some text =>
          match JSON_parse text with
          | Some v => (Returned (Some v), p)
          | None => (Threw (lit "SyntaxError"), p)
          end
      | None => (Threw (lit "ENOENT"), p)
      end
    else (Returned None, p).

(** Lines 172-173, the write: the file and the record of the call. *)
Definition save (kwiksetSavePath : jsstring) (creds : option Credentials) : M unit :=
  fun p =>
    let data := JSON_stringify creds in
    (Returned (),
     mkProcess (mem_idToken p) (writeFileSync (disk p) kwiksetSavePath data)
               (trace p ++ [WriteFile kwiksetSavePath data])).

(** The [do ... while (!codeVerified)] loop, one round per submission,
    together with the handler of lines 129-141 for the post that brings
    the code: its [emit('code')] starts the round and its listener for
    [authFeedback] receives the round's verdict.  Posts are taken one at
    a time, each made while the loop waits for a code; a post made while
    an earlier code is still being verified is not part of a [World].
    The value returned is the variable [credentials] at the exit. *)
Fixpoint verify_loop (subs : list Submission) : M (option Credentials) :=
  emit AwaitCode ;;
  match subs with
  | [] => suspend
  | sub :: later =>
      log Info (lit "Input received: " ++ template (code sub)
                  ++ lit ". Verifying...") ;;
      emit (SendCustomChallengeAnswer
              (lit "answerType:verifyCode,medium:phone,codeType:login,code:"
                 ++ template (code sub))) ;;
      match verify_answer sub with
      | Rejects err => emit (UnhandledRejection err) ;; suspend
      | Resolves _ =>
          emit CurrentAuthenticatedUser ;;
          match authenticated_user sub with
          | Resolves authenticatedUser =>
              let credentials := getCredentialsFromSession authenticatedUser in
              emit (Redirect (lit "/success.html")) ;;
              emit (CloseAfter 7000) ;;
              mret credentials
          | Rejects err =>
              log Error (lit "Failed to verify mfa code: " ++ err
                           ++ lit " - Try again.") ;;
              emit (Redirect (lit "/?error=bad+code")) ;;
              verify_loop later
          end
      end
  end.

(** Lines 180-181, where every path that does not return early ends. *)
Definition finish (credentials : option Credentials) : M unit :=
  set_idToken (idToken <$> credentials) ;;
  log Info (lit "Logged in!").

(** Line 78; the template literal holds one backslash. *)
Definition kwiksetSavePath (api : Api) : jsstring :=
  storagePath api ++ lit "\homebridge-kwikset-halo.json".

(** Lines 99-106. *)
Definition cached_login (world : World) (config : Config)
    (savedCreds : option jsval) : M (option Credentials) :=
  if truthy savedCreds then
    logInWithStoredCreds world config
      (savedCreds ≫= fun v => get_property v (lit "idToken"))
      (savedCreds ≫= fun v => get_property v (lit "accessToken"))
      (savedCreds ≫= fun v => get_property v (lit "refreshToken"))
  else mret None.

(** Lines 170-174, after the loop, and lines 180-181 after them. *)
Definition mfa_complete (api : Api) (world : World)
    (credentials : option Credentials) : M unit :=
  log Info (lit "Code verified!") ;;
  emit CurrentAuthenticatedUser ;;
  authenticatedUser ← await (final_user world);
  save (kwiksetSavePath api) (getCredentialsFromSession authenticatedUser) ;;
  log Debug (lit "Credentials saved!") ;;
  finish credentials.

(** Lines 118-169, the branch of the custom challenge up to the end of
    the loop, and what follows it. *)
Definition mfa_challenge (config : Config) (api : Api) (world : World)
  : M unit :=
  emit (SendCustomChallengeAnswer
          (lit "answerType:generateCode,medium:phone,codeType:login")) ;;
  await (generate_code world) ;;
  log Info (lit "Generated mfa code, waiting for input") ;;
  emit (Listen (mfaPort config)) ;;
  log Info (lit "MFA server listening on http://" ++ ip_address world
              ++ lit ":" ++ N_to_jsstring (mfaPort config)
              ++ lit "/index.html") ;;
  credentials ← verify_loop (submissions world);
  mfa_complete api world credentials.

(** Lines 108-177, the body of [if (!credentials)], entered with
    [credentials] null, and lines 180-181 where it falls through to
    them; the [catch] returns before them. *)
Definition reauthenticate (config : Config) (api : Api) (world : World)
  : M unit :=
  log Warn (lit "Failed to login with cached tokens, reauthenticating...") ;;
  emit (SignIn (email config) (password config)) ;;
  match Auth_signIn world (email config) (password config) with
  | Rejects err =>
      log Error (lit "Failed to log in: " ++ err
                   ++ lit " - Make sure your username and password are correct.")
  | Resolves user =>
      if bool_decide (challengeName user = Some (lit "CUSTOM_CHALLENGE")) then
        mfa_challenge config api world
      else
        log Error (lit "Unknown auth challenge name "
                     ++ template (challengeName user)) ;;
        finish None
  end.

Definition kwiksetLogin (constants : Constants) (config : Config) (api : Api)
    (world : World) : M unit :=
  log Debug (lit "Storage path: " ++ kwiksetSavePath api) ;;
  savedCreds ← load_savedCreds (kwiksetSavePath api);
  log Debug (lit "Running login...") ;;
  emit (AmplifyConfigure (COGNITO_AWS_REGION constants)
          (COGNITO_USER_POOL_ID constants) (COGNITO_USER_POOL_CLIENT constants)
          (lit "CUSTOM_AUTH")) ;;
  log Debug (lit "Logging in via cached tokens") ;;
  credentials ← cached_login world config savedCreds;
  match credentials with
  | Some _ => finish credentials
  | None => reauthenticate config api world
  end.

(** The arguments of the call to [fetch]. *)
Record FetchCall (B : Type) : Type := mkFetchCall {
  fetch_url : jsstring;
  fetch_method : jsstring;
  fetch_headers : list (jsstring * jsstring);
  fetch_body : option B
}.
Arguments mkFetchCall {B}.
Arguments fetch_url {B}.
Arguments fetch_method {B}.
Arguments fetch_headers {B}.
Arguments fetch_body {B}.

Record Opts (B : Type) : Type := mkOpts {
  path : jsstring;
  method : jsstring;
  body : option B
}.
Arguments mkOpts {B}.
Arguments path {B}.
Arguments method {B}.
Arguments body {B}.

(** [apiRequest] returns what [fetch] returns for this call. *)
Definition apiRequest {B : Type} (constants : Constants) (p : process)
    (opts : Opts B) : FetchCall B :=
  let apiHeaders :=
    [ (lit "Host", API_HOST constants);
      (lit "User-Agent", API_USER_AGENT constants);
      (lit "Accept-Encoding", lit "gzip");
      (lit "Authorization", lit "Bearer " ++ template (mem_idToken p)) ] in
  mkFetchCall (lit "https://" ++ API_HOST constants ++ lit "/" ++ path opts)
              (method opts) apiHeaders (body opts).

(** The header of a given name, as [fetch] sends it. *)
Definition header (name : jsstring) (hs : list (jsstring * jsstring))
  : option jsstring :=
  snd <$> find (fun h => bool_decide (fst h = name)) hs.

(* ================================================================= *)
(** ** Vocabulary of the properties *)

(** A record whose fields are JavaScript strings. *)
Definition wf_credentials (c : Credentials) : Prop :=
  wf_jsstring (idToken c) /\ wf_jsstring (accessToken c) /\ wf_jsstring (refreshToken c).

(** The value [JSON.parse] builds for the text of a record. *)
Definition credentials_object (c : Credentials) : jsval :=
  JObj [ (lit "idToken", JStr (idToken c));
         (lit "accessToken", JStr (accessToken c));
         (lit "refreshToken", JStr (refreshToken c)) ].

(** What a parser returns with fuel [f] on a text of length at most [n],
    it returns with fuel [f1]. *)
Definition carries {A : Type} (parse : nat -> jsstring -> option A)
    (f f1 n : nat) : Prop :=
  forall s r, (length s <= n)%nat -> parse f s = Some r -> parse f1 s = Some r.

(** A code unit that is a character by itself. *)
Definition plain (c : N) : Prop :=
  code_unit c /\ is_lead c = false /\ is_trail c = false.

(** Text without a lone surrogate: what UTF-8 can carry unchanged. *)
Inductive utf16_text : jsstring -> Prop :=
  | text_nil : utf16_text []
  | text_plain c t : plain c -> utf16_text t -> utf16_text (c :: t)
  | text_pair c d t :
      is_lead c = true -> is_trail d = true -> utf16_text t ->
      utf16_text (c :: d :: t).

(** The events of one kind. *)
Definition is_Listen (e : event) : bool :=
  match e with Listen _ => true | _ => false end.
Definition is_WriteFile (e : event) : bool :=
  match e with WriteFile _ _ => true | _ => false end.
Definition is_CloseAfter (e : event) : bool :=
  match e with CloseAfter _ => true | _ => false end.
Definition is_StoredSession (e : event) : bool :=
  match e with StoredSession _ _ _ _ => true | _ => false end.
Definition is_SignIn (e : event) : bool :=
  match e with SignIn _ _ => true | _ => false end.
Definition is_AwaitCode (e : event) : bool :=
  match e with AwaitCode => true | _ => false end.

(** The process after more events. *)
Definition after (p : process) (evs : list event) : process :=
  mkProcess (mem_idToken p) (disk p) (trace p ++ evs).

(** A code rejected the way the loop detects it: the answer call
    resolves, and then there is no authenticated user. *)
Definition rejected (sub : Submission) : bool :=
  match verify_answer sub, authenticated_user sub with
  | Resolves _, Rejects _ => true
  | _, _ => false
  end.

(** A code the provider accepts, with the user it signs in. *)
Definition accepted (sub : Submission) : option CognitoUser :=
  match verify_answer sub, authenticated_user sub with
  | Resolves _, Resolves user => Some user
  | _, _ => None
  end.

(** Lines 99-107 find no usable cached session: no token file, or a file
    whose value is falsy, or one whose session the provider refuses. *)
Definition cached_session_absent_or_invalid (world : World) (config : Config)
    (api : Api) (p : process) : Prop :=
  disk p !! kwiksetSavePath api = None
  \/ exists content v,
       disk p !! kwiksetSavePath api = Some content
       /\ JSON_parse (utf8_decode content) = Some v
       /\ (truthy (Some v) = false
           \/ truthy (Some v) = true
              /\ exists user,
                stored_user world (email config)
                  (get_property v (lit "idToken"))
                  (get_property v (lit "accessToken"))
                  (get_property v (lit "refreshToken")) = Resolves user
                /\ getSession user = SessionError).


(** A session restored from the token file that the provider accepts,
    giving the record [c]. *)
Definition cached_session_valid (world : World) (config : Config) (api : Api)
    (p : process) (c : Credentials) : Prop :=
  exists content v user,
    disk p !! kwiksetSavePath api = Some content
    /\ JSON_parse (utf8_decode content) = Some v
    /\ truthy (Some v) = true
    /\ stored_user world (email config)
         (get_property v (lit "idToken")) (get_property v (lit "accessToken"))
         (get_property v (lit "refreshToken")) = Resolves user
    /\ getCredentialsFromSession user = Some c.

(** The password is right, the provider asks for the custom challenge
    and sends the one-time code. *)
Definition custom_challenge_issued (world : World) (config : Config) : Prop :=
  exists user,
    Auth_signIn world (email config) (password config) = Resolves user
    /\ challengeName user = Some (lit "CUSTOM_CHALLENGE")
    /\ generate_code world = Resolves ().

(** The challenge is completed: after some rejected codes one is
    accepted, and the session is there to be fetched afterwards. *)
Definition mfa_completed (world : World) (config : Config) : Prop :=
  custom_challenge_issued world config
  /\ (exists bad good later user,
       submissions world = bad ++ good :: later
       /\ forallb rejected bad = true
       /\ accepted good = Some user)
  /\ exists user, final_user world = Resolves user.

(** The same world in which other codes are submitted. *)
Definition with_submissions (world : World) (subs : list Submission) : World :=
  mkWorld (ip_address world) (stored_user world) (Auth_signIn world)
          (generate_code world) subs (final_user world).

(** How many events of a kind. *)
Definition count (f : event -> bool) (evs : list event) : nat :=
  length (List.filter f evs).

(** What happens before the cached session is decided (lines 79-106). *)
Definition startup_event (e : event) : bool :=
  match e with
  | Log _ _ | AmplifyConfigure _ _ _ _ | StoredSession _ _ _ _ => true
  | _ => false
  end.

(** What a round of the loop does when the code is rejected. *)
Definition retry_event (e : event) : bool :=
  match e with
  | AwaitCode | Log _ _ | SendCustomChallengeAnswer _
  | CurrentAuthenticatedUser | Redirect _ => true
  | _ => false
  end.

(** Lines 79, 86, 88-95 and 97. *)
Definition startup_events (constants : Constants) (api : Api) : list event :=
  [Log Debug (lit "Storage path: " ++ kwiksetSavePath api);
   Log Debug (lit "Running login...");
   AmplifyConfigure (COGNITO_AWS_REGION constants)
     (COGNITO_USER_POOL_ID constants) (COGNITO_USER_POOL_CLIENT constants)
     (lit "CUSTOM_AUTH");
   Log Debug (lit "Logging in via cached tokens")].

(* ================================================================= *)
(** ** Concrete runs *)

Definition example_constants : Constants :=
  mkConstants (lit "us-east-1") (lit "us-east-1_pool") (lit "client")
              (lit "api.example.invalid") (lit "agent/1.0").
Definition example_config : Config :=
  mkConfig (lit "user@example.com") (lit "secret") 47279.
Definition example_api : Api := mkApi (lit "/var/lib/homebridge").

Definition cached_record : Credentials :=
  mkCredentials (lit "id.cached") (lit "access.cached") (lit "refresh.cached").
Definition refreshed_record : Credentials :=
  mkCredentials (lit "id.refreshed") (lit "access.refreshed") (lit "refresh.cached").
Definition loop_record : Credentials :=
  mkCredentials (lit "id.loop") (lit "access.loop") (lit "refresh.loop").
Definition final_record : Credentials :=
  mkCredentials (lit "id.final") (lit "access.final") (lit "refresh.final").

(** A record with a quote, a backslash, a line feed, characters outside
    ASCII, a surrogate pair, a lone surrogate and a NUL. *)
Definition awkward_record : Credentials :=
  mkCredentials [0x65; 0x79; 0x4A] [0x22; 0x5C; 0x0A; 0xE9; 0x20AC]
                [0xD83D; 0xDE00; 0xDC00; 0x00].

Definition signed_in (c : Credentials) : CognitoUser :=
  mkUser None (Session (idToken c) (accessToken c) (refreshToken c)).
Definition no_session : CognitoUser := mkUser None SessionError.
Definition challenged (name : string) : CognitoUser :=
  mkUser (Some (lit name)) SessionError.

Definition wrong_code : Submission :=
  mkSubmission (Some (lit "000000")) (Resolves ())
               (Rejects (lit "The user is not authenticated")).
Definition right_code : Submission :=
  mkSubmission (Some (lit "123456")) (Resolves ())
               (Resolves (signed_in loop_record)).

(** Two wrong codes and then the right one; the sign-in and the fetch
    after the loop vary. *)
Definition example_world (sign : sdk CognitoUser) (final : sdk CognitoUser)
  : World :=
  mkWorld (lit "192.168.1.20")
          (fun _ _ _ _ => Resolves (signed_in refreshed_record))
          (fun _ _ => sign)
          (Resolves ())
          [wrong_code; wrong_code; right_code]
          final.

Definition mfa_world : World :=
  example_world (Resolves (challenged "CUSTOM_CHALLENGE"))
                (Resolves (signed_in final_record)).

Definition wrong_password_world : World :=
  example_world
    (Rejects (lit "NotAuthorizedException: Incorrect username or password."))
    (Rejects (lit "The user is not authenticated")).

Definition totp_world : World :=
  example_world (Resolves (challenged "SOFTWARE_TOKEN_MFA"))
                (Rejects (lit "The user is not authenticated")).

Definition second_fetch_fails_world : World :=
  example_world (Resolves (challenged "CUSTOM_CHALLENGE")) (Resolves no_session).

Definition fresh_process : process := mkProcess None ∅ [].

Definition process_with_token_file : process :=
  mkProcess None
    (writeFileSync ∅ (kwiksetSavePath example_api)
       (JSON_stringify (Some cached_record)))
    [].

(* ================================================================= *)
(** ** The paths of a run *)

(** The events of a run: what [kwiksetLogin] adds to the trace. *)
Definition run_events (constants : Constants) (config : Config) (api : Api)
    (world : World) (p : process) : list event :=
  drop (length (trace p))
       (trace (snd (kwiksetLogin constants config api world p))).

Definition is_UnhandledRejection (e : event) : bool :=
  match e with UnhandledRejection _ => true | _ => false end.

(** What the verify loop can do: the events of a retry, the close it
    schedules on success, and the rejection it leaves unhandled. *)
Definition loop_event (e : event) : bool :=
  retry_event e || is_CloseAfter e || is_UnhandledRejection e.

(** Lines 108 and 111. *)
Definition reauth_events (config : Config) : list event :=
  [Log Warn (lit "Failed to login with cached tokens, reauthenticating...");
   SignIn (email config) (password config)].

(** Lines 118-145. *)
Definition listen_events (config : Config) (world : World) : list event :=
  [SendCustomChallengeAnswer
     (lit "answerType:generateCode,medium:phone,codeType:login");
   Log Info (lit "Generated mfa code, waiting for input");
   Listen (mfaPort config);
   Log Info (lit "MFA server listening on http://" ++ ip_address world
               ++ lit ":" ++ N_to_jsstring (mfaPort config)
               ++ lit "/index.html")].

(** Lines 170-174 and 181. *)
Definition complete_events (api : Api) (creds : option Credentials)
  : list event :=
  [Log Info (lit "Code verified!"); CurrentAuthenticatedUser;
   WriteFile (kwiksetSavePath api) (JSON_stringify creds);
   Log Debug (lit "Credentials saved!"); Log Info (lit "Logged in!")].

(** The call that restores the session of a parsed token file. *)
Definition stored_call (config : Config) (v : jsval) : event :=
  StoredSession (email config)
    (get_property v (lit "idToken")) (get_property v (lit "accessToken"))
    (get_property v (lit "refreshToken")).

(** The ways through lines 108-181 once there is no cached session, each
    with the outcome and the process it leaves. *)
Inductive reauth_path (config : Config) (api : Api) (world : World)
    (p : process) : outcome unit -> process -> Prop :=
  | signin_fails err :
      Auth_signIn world (email config) (password config) = Rejects err ->
      reauth_path config api world p (Returned ())
        (after p (reauth_events config ++
           [Log Error (lit "Failed to log in: " ++ err
              ++ lit " - Make sure your username and password are correct.")]))
  | challenge_unknown user :
      Auth_signIn world (email config) (password config) = Resolves user ->
      challengeName user <> Some (lit "CUSTOM_CHALLENGE") ->
      reauth_path config api world p (Returned ())
        (mkProcess None (disk p)
           (trace p ++ reauth_events config ++
              [Log Error (lit "Unknown auth challenge name "
                            ++ template (challengeName user));
               Log Info (lit "Logged in!")]))
  | generate_fails user err :
      Auth_signIn world (email config) (password config) = Resolves user ->
      challengeName user = Some (lit "CUSTOM_CHALLENGE") ->
      generate_code world = Rejects err ->
      reauth_path config api world p (Threw err)
        (after p (reauth_events config ++
           [SendCustomChallengeAnswer
              (lit "answerType:generateCode,medium:phone,codeType:login")]))
  | loop_waits evs :
      custom_challenge_issued world config ->
      forallb loop_event evs = true ->
      existsb is_CloseAfter evs = false ->
      reauth_path config api world p Pending
        (after p (reauth_events config ++ listen_events config world ++ evs))
  | final_fetch_fails evs err :
      custom_challenge_issued world config ->
      forallb loop_event evs = true ->
      count is_CloseAfter evs = 1%nat ->
      final_user world = Rejects err ->
      reauth_path config api world p (Threw err)
        (after p (reauth_events config ++ listen_events config world ++ evs
                    ++ [Log Info (lit "Code verified!");
                        CurrentAuthenticatedUser]))
  | challenge_completed evs bad good later user user2 :
      custom_challenge_issued world config ->
      forallb loop_event evs = true ->
      count is_CloseAfter evs = 1%nat ->
      submissions world = bad ++ good :: later ->
      forallb rejected bad = true ->
      accepted good = Some user ->
      final_user world = Resolves user2 ->
      reauth_path config api world p (Returned ())
        (mkProcess (idToken <$> getCredentialsFromSession user)
           (writeFileSync (disk p) (kwiksetSavePath api)
              (JSON_stringify (getCredentialsFromSession user2)))
           (trace p ++ reauth_events config ++ listen_events config world
              ++ evs
              ++ complete_events api (getCredentialsFromSession user2))).

(** The ways through [kwiksetLogin]. *)
Inductive login_path (constants : Constants) (config : Config) (api : Api)
    (world : World) (p : process) : outcome unit -> process -> Prop :=
  | file_malformed content :
      disk p !! kwiksetSavePath api = Some content ->
      JSON_parse (utf8_decode content) = None ->
      login_path constants config api world p (Threw (lit "SyntaxError"))
        (after p [Log Debug (lit "Storage path: " ++ kwiksetSavePath api)])
  | restore_throws content v err :
      disk p !! kwiksetSavePath api = Some content ->
      JSON_parse (utf8_decode content) = Some v ->
      truthy (Some v) = true ->
      stored_user world (email config)
        (get_property v (lit "idToken")) (get_property v (lit "accessToken"))
        (get_property v (lit "refreshToken")) = Rejects err ->
      login_path constants config api world p (Threw err)
        (after p (startup_events constants api ++ [stored_call config v]))
  | session_restored content v user c :
      disk p !! kwiksetSavePath api = Some content ->
      JSON_parse (utf8_decode content) = Some v ->
      truthy (Some v) = true ->
      stored_user world (email config)
        (get_property v (lit "idToken")) (get_property v (lit "accessToken"))
        (get_property v (lit "refreshToken")) = Resolves user ->
      getCredentialsFromSession user = Some c ->
      login_path constants config api world p (Returned ())
        (mkProcess (Some (idToken c)) (disk p)
           (trace p ++ startup_events constants api
              ++ [stored_call config v; Log Info (lit "Logged in!")]))
  | file_absent o p' :
      disk p !! kwiksetSavePath api = None ->
      reauth_path config api world
        (after p (startup_events constants api)) o p' ->
      login_path constants config api world p o p'
  | file_falsy content v o p' :
      disk p !! kwiksetSavePath api = Some content ->
      JSON_parse (utf8_decode content) = Some v ->
      truthy (Some v) = false ->
      reauth_path config api world
        (after p (startup_events constants api)) o p' ->
      login_path constants config api world p o p'
  | session_refused content v user o p' :
      disk p !! kwiksetSavePath api = Some content ->
      JSON_parse (utf8_decode content) = Some v ->
      truthy (Some v) = true ->
      stored_user world (email config)
        (get_property v (lit "idToken")) (get_property v (lit "accessToken"))
        (get_property v (lit "refreshToken")) = Resolves user ->
      getSession user = SessionError ->
      reauth_path config api world
        (after p (startup_events constants api ++ [stored_call config v]))
        o p' ->
      login_path constants config api world p o p'.

Definition is_Redirect (e : event) : bool :=
  match e with Redirect _ => true | _ => false end.

(** Line 151: the code received, written to the log. *)
Definition input_log (sub : Submission) : event :=
  Log Info (lit "Input received: " ++ template (code sub)
              ++ lit ". Verifying...").

(** Lines 152-155: the answer handed to the provider. *)
Definition answer_call (sub : Submission) : event :=
  SendCustomChallengeAnswer
    (lit "answerType:verifyCode,medium:phone,codeType:login,code:"
       ++ template (code sub)).

(* ================================================================= *)
(** ** More concrete runs *)

Definition process_with_broken_file : process :=
  mkProcess None (writeFileSync ∅ (kwiksetSavePath example_api) (lit "{")) [].

Definition process_with_null_file : process :=
  snd (save (kwiksetSavePath example_api) None fresh_process).

Definition process_with_array_file : process :=
  mkProcess None
    (writeFileSync ∅ (kwiksetSavePath example_api) (lit "[1]")) [].

Definition process_with_old_token : process :=
  mkProcess (Some (lit "id.old")) ∅ [].

(** The SDK refuses to build a user from the stored tokens. *)
Definition restore_throws_world : World :=
  mkWorld (lit "192.168.1.20")
          (fun _ _ _ _ => Rejects (lit "TypeError: token.split is not a function"))
          (fun _ _ => Resolves (challenged "CUSTOM_CHALLENGE"))
          (Resolves ()) [] (Resolves (signed_in final_record)).

(** The request to send a code fails. *)
Definition generate_fails_world : World :=
  mkWorld (lit "192.168.1.20")
          (fun _ _ _ _ => Resolves no_session)
          (fun _ _ => Resolves (challenged "CUSTOM_CHALLENGE"))
          (Rejects (lit "NetworkError")) [] (Resolves (signed_in final_record)).

Definition final_fetch_fails_world : World :=
  example_world (Resolves (challenged "CUSTOM_CHALLENGE"))
                (Rejects (lit "The user is not authenticated")).

(** A post whose answer call fails, and one without a code field that
    the provider accepts without a session to fetch. *)
Definition stalling_code : Submission :=
  mkSubmission (Some (lit "111111")) (Rejects (lit "NetworkError"))
               (Resolves (signed_in loop_record)).

Definition sessionless_code : Submission :=
  mkSubmission None (Resolves ()) (Resolves no_session).

Definition stalling_world : World :=
  with_submissions mfa_world [wrong_code; stalling_code; right_code].

Definition sessionless_world : World :=
  with_submissions mfa_world [wrong_code; sessionless_code].

(** A wrong code that the provider refuses by failing the answer call
    itself, and the right code posted after it. *)
Definition refused_code : Submission :=
  mkSubmission (Some (lit "000000"))
               (Rejects (lit "NotAuthorizedException: Incorrect username or password."))
               (Rejects (lit "The user is not authenticated")).

Definition refused_world : World :=
  with_submissions mfa_world [refused_code; right_code].

(* ================================================================= *)
(** ** Concrete evaluations *)

Example stringify_record :
  JSON_stringify (Some (mkCredentials (lit "a.b") [0x22; 0x0A] [0xD800]))
  = lit "{" ++ [0x22] ++ lit "idToken" ++ [0x22] ++ lit ":"
      ++ [0x22] ++ lit "a.b" ++ [0x22] ++ lit ","
      ++ [0x22] ++ lit "accessToken" ++ [0x22] ++ lit ":"
      ++ [0x22] ++ lit "\" ++ [0x22] ++ lit "\n" ++ [0x22] ++ lit ","
      ++ [0x22] ++ lit "refreshToken" ++ [0x22] ++ lit ":"
      ++ [0x22] ++ lit "\ud800" ++ [0x22] ++ lit "}".
Proof. vm_compute. reflexivity. Qed.

Example stringify_null : JSON_stringify None = lit "null".
Proof. reflexivity. Qed.

Example parse_nested :
  JSON_parse (lit " [1, 2.50e-3, {}, [true], null, -0 ] ")
  = Some (JArr [JNum false 1 0; JNum false 250 (-5); JObj [];
                JArr [JBool true]; JNull; JNum true 0 0]).
Proof. vm_compute. reflexivity. Qed.

Example parse_leading_zero : JSON_parse (lit "01") = None.
Proof. vm_compute. reflexivity. Qed.

Example parse_unclosed : JSON_parse (lit "{") = None.
Proof. vm_compute. reflexivity. Qed.

Example parse_empty_file : JSON_parse [] = None.
Proof. vm_compute. reflexivity. Qed.

Example falsy_values :
  map (fun text => truthy (JSON_parse (lit text)))
      ["null"; "false"; "0"; "-0.0"; "0e9"; "true"; "7"; "[]"; "{}"]%string
  = [false; false; false; false; false; true; true; true; true].
Proof. vm_compute. reflexivity. Qed.

Example underflow_is_falsy :
  truthy (JSON_parse (lit "1e-400")) = false
  /\ truthy (JSON_parse (lit "1e-300")) = true.
Proof. vm_compute. split; reflexivity. Qed.

Example decode_ill_formed :
  utf8_decode [0xE2; 0x82; 0x41; 0xC0; 0xF0; 0x9F; 0x98; 0x80; 0xED; 0xA0; 0x80]
  = [0xFFFD; 0x41; 0xFFFD; 0xD83D; 0xDE00; 0xFFFD; 0xFFFD; 0xFFFD].
Proof. vm_compute. reflexivity. Qed.

Example encode_lone_surrogate : utf8_encode [0xD800; 0x41] = [0xEF; 0xBF; 0xBD; 0x41].
Proof. vm_compute. reflexivity. Qed.

Example port_in_template : N_to_jsstring 47279 = lit "47279".
Proof. vm_compute. reflexivity. Qed.

Example save_path :
  kwiksetSavePath example_api
  = lit "/var/lib/homebridge\homebridge-kwikset-halo.json".
Proof. vm_compute. reflexivity. Qed.

Example run_wrong_password :
  kwiksetLogin example_constants example_config example_api
    wrong_password_world fresh_process
  = (Returned (),
     mkProcess None ∅
       [Log Debug
          (lit "Storage path: /var/lib/homebridge\homebridge-kwikset-halo.json");
        Log Debug (lit "Running login...");
        AmplifyConfigure (lit "us-east-1") (lit "us-east-1_pool")
          (lit "client") (lit "CUSTOM_AUTH");
        Log Debug (lit "Logging in via cached tokens");
        Log Warn (lit "Failed to login with cached tokens, reauthenticating...");
        SignIn (lit "user@example.com") (lit "secret");
        Log Error
          (lit "Failed to log in: NotAuthorizedException: Incorrect username or password. - Make sure your username and password are correct.")]).
Proof. vm_compute. reflexivity. Qed.

Example run_mfa_counts :
  let '(o, p) :=
    kwiksetLogin example_constants example_config example_api mfa_world
      fresh_process in
  (o, mem_idToken p, count is_AwaitCode (trace p), count is_Listen (trace p),
   count is_CloseAfter (trace p), count is_WriteFile (trace p))
  = (Returned (), Some (lit "id.loop"), 3%nat, 1%nat, 1%nat, 1%nat).
Proof. vm_compute. reflexivity. Qed.

(* ================================================================= *)
(** ** Arithmetic on code units and bytes *)

(** Settle the comparisons of the goal whose result follows from the
    hypotheses by linear arithmetic. *)
Ltac settle_comparisons :=
  repeat match goal with
  | |- context [N.eqb ?a ?b] =>
      first
        [ replace (N.eqb a b) with false by (symmetry; apply N.eqb_neq; lia)
        | replace (N.eqb a b) with true by (symmetry; apply N.eqb_eq; lia) ]
  | |- context [N.ltb ?a ?b] =>
      first
        [ replace (N.ltb a b) with false by (symmetry; apply N.ltb_ge; lia)
        | replace (N.ltb a b) with true by (symmetry; apply N.ltb_lt; lia) ]
  | |- context [N.leb ?a ?b] =>
      first
        [ replace (N.leb a b) with false by (symmetry; apply N.leb_gt; lia)
        | replace (N.leb a b) with true by (symmetry; apply N.leb_le; lia) ]
  end.

(* ================================================================= *)
(** ** What [JSON.stringify] writes, [JSON.parse] reads *)

Lemma hex_value_hex_digit (n : N) : n < 16 -> hex_value (hex_digit n) = Some n.
Proof.
  intros Hn. unfold hex_value, hex_digit.
  destruct (N.ltb_spec n 10); settle_comparisons; simpl; f_equal; lia.
Qed.

Lemma parse_chars_UnicodeEscape (c : N) (t out rest : jsstring) :
  code_unit c ->
  parse_chars t = Some (out, rest) ->
  parse_chars (UnicodeEscape c ++ t) = Some (c :: out, rest).
Proof.
  unfold code_unit. intros Hc Ht. unfold UnicodeEscape. simpl.
  rewrite !hex_value_hex_digit by lia. simpl. rewrite Ht. simpl.
  do 2 f_equal. f_equal. lia.
Qed.

Lemma parse_chars_plain (c : N) (t out rest : jsstring) :
  c <> 0x22 -> c <> 0x5C -> 0x20 <= c ->
  parse_chars t = Some (out, rest) ->
  parse_chars (c :: t) = Some (c :: out, rest).
Proof.
  intros H1 H2 H3 Ht. simpl. settle_comparisons. rewrite Ht. reflexivity.
Qed.

Lemma parse_chars_quote_unit (c : N) (t out rest : jsstring) :
  code_unit c ->
  parse_chars t = Some (out, rest) ->
  parse_chars (quote_unit c ++ t) = Some (c :: out, rest).
Proof.
  intros Hc Ht. unfold quote_unit.
  repeat match goal with
  | |- context [if N.eqb c ?k then _ else _] =>
      destruct (N.eqb_spec c k) as [->|?];
      [ simpl; rewrite Ht; reflexivity | ]
  end.
  destruct ((c <? 0x20) || is_lead c || is_trail c) eqn:E.
  - apply parse_chars_UnicodeEscape; assumption.
  - apply orb_false_elim in E as [E _]. apply orb_false_elim in E as [E _].
    apply N.ltb_ge in E. apply parse_chars_plain; assumption.
Qed.

(** Reading back what QuoteJSONString wrote gives the string again. *)
Lemma parse_chars_quote_units (s rest : jsstring) :
  wf_jsstring s ->
  parse_chars (quote_units s ++ 0x22 :: rest) = Some (s, rest).
Proof.
  remember (length s) as n eqn:Hn. revert s Hn.
  induction n as [n IH] using lt_wf_ind. intros s Hn Hwf.
  destruct s as [|c [|d s']].
  - reflexivity.
  - inversion Hwf; subst.
    change (quote_units [c]) with (quote_unit c).
    apply parse_chars_quote_unit; [assumption | reflexivity].
  - inversion Hwf as [|? ? Hc Hwf']; subst.
    change (quote_units (c :: d :: s'))
      with (if is_lead c && is_trail d then c :: d :: quote_units s'
            else quote_unit c ++ quote_units (d :: s')).
    destruct (is_lead c && is_trail d) eqn:E.
    + apply andb_prop in E as [El Et].
      unfold is_lead in El. unfold is_trail in Et.
      apply andb_prop in El as [El1 El2]. apply andb_prop in Et as [Et1 Et2].
      apply N.leb_le in El1, El2, Et1, Et2.
      inversion Hwf'; subst.
      rewrite <- !app_comm_cons.
      apply parse_chars_plain; [lia | lia | lia | ].
      apply parse_chars_plain; [lia | lia | lia | ].
      apply (IH (length s')); [simpl; lia | reflexivity | assumption].
    + rewrite <- app_assoc. apply parse_chars_quote_unit; [assumption | ].
      apply (IH (length (d :: s'))); [simpl; lia | reflexivity | assumption].
Qed.

Lemma parse_value_string (fuel : nat) (s rest : jsstring) :
  wf_jsstring s ->
  parse_value (S fuel) (QuoteJSONString s ++ rest) = Some (JStr s, rest).
Proof.
  intros Hs. unfold QuoteJSONString. rewrite <- app_comm_cons, <- app_assoc.
  cbn -[parse_chars quote_units].
  rewrite parse_chars_quote_units by assumption. reflexivity.
Qed.

Lemma parse_members_last (fuel : nat) (k s rest : jsstring) :
  wf_jsstring k -> wf_jsstring s ->
  parse_members (S (S fuel))
    (QuoteJSONString k ++ 0x3A :: QuoteJSONString s ++ 0x7D :: rest)
  = Some ([(k, JStr s)], rest).
Proof.
  intros Hk Hs.
  unfold QuoteJSONString at 1. rewrite <- app_comm_cons, <- app_assoc.
  cbn -[parse_chars quote_units parse_value QuoteJSONString].
  rewrite parse_chars_quote_units by assumption.
  cbn -[parse_chars quote_units parse_value QuoteJSONString].
  rewrite parse_value_string by assumption. reflexivity.
Qed.

Lemma parse_members_more (fuel : nat) (k s t rest : jsstring)
    (ms : list (jsstring * jsval)) :
  wf_jsstring k -> wf_jsstring s ->
  parse_members (S fuel) t = Some (ms, rest) ->
  parse_members (S (S fuel))
    (QuoteJSONString k ++ 0x3A :: QuoteJSONString s ++ 0x2C :: t)
  = Some ((k, JStr s) :: ms, rest).
Proof.
  intros Hk Hs Ht.
  unfold QuoteJSONString at 1. rewrite <- app_comm_cons, <- app_assoc.
  remember (S fuel) as f eqn:Ef.
  cbn -[parse_chars quote_units QuoteJSONString].
  rewrite parse_chars_quote_units by assumption.
  cbn -[parse_chars quote_units QuoteJSONString].
  subst f. rewrite parse_value_string by assumption.
  cbn -[parse_members]. rewrite Ht. reflexivity.
Qed.

Ltac eval_literals :=
  repeat match goal with
  | |- context [lit ?s] =>
      let v := eval vm_compute in (lit s) in change (lit s) with v
  end.

Lemma wf_jsstring_lit (s : string) : wf_jsstring (lit s).
Proof.
  unfold wf_jsstring, lit.
  induction (list_ascii_of_string s) as [|a l IH]; simpl; constructor; [|exact IH].
  unfold code_unit. pose proof (N_ascii_bounded a). lia.
Qed.

Lemma parse_value_object (fuel : nat) (k t rest : jsstring)
    (ms : list (jsstring * jsval)) :
  parse_members fuel (QuoteJSONString k ++ t) = Some (ms, rest) ->
  parse_value (S fuel) (0x7B :: QuoteJSONString k ++ t) = Some (JObj ms, rest).
Proof.
  unfold QuoteJSONString. rewrite <- app_comm_cons. intros Hms.
  cbn -[parse_members quote_units]. rewrite Hms. reflexivity.
Qed.

Lemma parse_value_credentials (fuel : nat) (c : Credentials) (rest : jsstring) :
  wf_credentials c ->
  parse_value (S (S (S (S (S fuel))))) (JSON_stringify (Some c) ++ rest)
  = Some (credentials_object c, rest).
Proof.
  intros (Hi & Ha & Hr). unfold JSON_stringify, credentials_object.
  pose proof (wf_jsstring_lit "idToken") as Hk1.
  pose proof (wf_jsstring_lit "accessToken") as Hk2.
  pose proof (wf_jsstring_lit "refreshToken") as Hk3.
  generalize dependent (lit "refreshToken"). intros k3 Hk3.
  generalize dependent (lit "accessToken"). intros k2 Hk2.
  generalize dependent (lit "idToken"). intros k1 Hk1.
  eval_literals. rewrite <- !app_assoc.
  change ([123] ++ ?t) with (123 :: t).
  apply parse_value_object.
  change ([58] ++ ?t) with (58 :: t).
  change ([44] ++ ?t) with (44 :: t).
  change ([125] ++ ?t) with (125 :: t).
  apply parse_members_more; [assumption | assumption | ].
  apply parse_members_more; [assumption | assumption | ].
  apply parse_members_last; assumption.
Qed.

Lemma JSON_parse_stringify (c : Credentials) :
  wf_credentials c ->
  JSON_parse (JSON_stringify (Some c)) = Some (credentials_object c).
Proof.
  intros Hc. unfold JSON_parse.
  assert (Hlen : (2 <= length (JSON_stringify (Some c)))%nat).
  { unfold JSON_stringify, QuoteJSONString. eval_literals. simpl. lia. }
  replace (2 * length (JSON_stringify (Some c)) + 2)%nat
    with (S (S (S (S (S (2 * length (JSON_stringify (Some c)) - 3)))))) by lia.
  rewrite <- (app_nil_r (JSON_stringify (Some c))) at 2.
  rewrite parse_value_credentials by assumption. reflexivity.
Qed.

(* ================================================================= *)
(** ** The fuel of the parser *)

(** Take apart the matches and binds of a hypothesis. *)
Ltac crack :=
  repeat first
    [ progress simplify_option_eq
    | match goal with
      | H : context [let '(_, _) := ?x in _] |- _ => destruct x
      | H : context [if ?b then _ else _] |- _ => destruct b eqn:?
      | H : context [match ?x with _ => _ end] |- _ => destruct x eqn:?
      end ].

Lemma skip_ws_length (s : jsstring) : (length (skip_ws s) <= length s)%nat.
Proof.
  induction s as [|c s IH]; simpl; [lia|]. destruct (is_ws c); simpl; lia.
Qed.

Lemma skip_ws_cons (s r : jsstring) (c : N) :
  skip_ws s = c :: r -> (S (length r) <= length s)%nat.
Proof.
  intros H. pose proof (skip_ws_length s) as L. rewrite H in L. exact L.
Qed.

Lemma parse_chars_length (s t rest : jsstring) :
  parse_chars s = Some (t, rest) -> (length rest < length s)%nat.
Proof.
  remember (length s) as n eqn:Hn. revert s t rest Hn.
  induction n as [n IH] using lt_wf_ind. intros s t rest Hn H.
  destruct s as [|c r]; [discriminate|]. cbn [parse_chars] in H.
  crack; simpl in *;
    repeat match goal with
    | H : parse_chars ?r = Some _ |- _ =>
        apply (IH (length r)) in H; [|lia|reflexivity]
    end; lia.
Qed.

Lemma take_digits_length (s : jsstring) :
  (length (snd (take_digits s)) <= length s)%nat.
Proof.
  induction s as [|c r IH]; simpl; [lia|].
  destruct (is_digit c); simpl; [|lia].
  destruct (take_digits r); simpl in *. lia.
Qed.

Lemma strip_prefix_length (p s r : jsstring) :
  strip_prefix p s = Some r -> (length r <= length s)%nat.
Proof.
  revert s. induction p as [|a p IH]; intros s H; simpl in H.
  - injection H as ->. lia.
  - destruct s as [|b s]; [discriminate|].
    destruct (a =? b); [|discriminate]. apply IH in H. simpl. lia.
Qed.

Lemma take_digits_rest (s ds rest : jsstring) :
  take_digits s = (ds, rest) -> (length rest <= length s)%nat.
Proof.
  intros H. pose proof (take_digits_length s) as L. rewrite H in L. exact L.
Qed.

Lemma parse_fraction_length (s rest : jsstring) (ds : list N) :
  parse_fraction s = Some (ds, rest) -> (length rest <= length s)%nat.
Proof.
  unfold parse_fraction. intros H.
  destruct s as [|p r]; [injection H as _ <-; lia|].
  destruct (p =? 0x2E); [|injection H as _ <-; lia].
  destruct (take_digits r) as [ds' rest'] eqn:E.
  apply take_digits_rest in E.
  destruct ds'; [discriminate|]. injection H as _ <-. simpl. lia.
Qed.

Lemma parse_exponent_length (s rest : jsstring) (e : Z) :
  parse_exponent s = Some (e, rest) -> (length rest <= length s)%nat.
Proof.
  unfold parse_exponent. intros H.
  destruct s as [|c r]; [injection H as _ <-; lia|].
  destruct ((c =? 0x65) || (c =? 0x45)); [|injection H as _ <-; lia].
  assert (Hd : forall r1 ds' rest',
             (length r1 <= length r)%nat ->
             take_digits r1 = (ds', rest') ->
             (length rest' <= S (length r))%nat).
  { intros r1 ds' rest' L E. apply take_digits_rest in E. lia. }
  destruct r as [|sg r'].
  - destruct (take_digits []) as [ds' rest'] eqn:E.
    destruct ds'; [discriminate|]. injection H as _ <-.
    eapply (Hd []); [simpl; lia | exact E].
  - destruct (sg =? 0x2D); [|destruct (sg =? 0x2B)];
      match type of H with
      | context [take_digits ?r1] =>
          destruct (take_digits r1) as [ds' rest'] eqn:E;
          destruct ds'; [discriminate|]; injection H as _ <-;
          eapply (Hd r1); [simpl; lia | exact E]
      end.
Qed.

Lemma parse_number_length (s rest : jsstring) (v : jsval) :
  parse_number s = Some (v, rest) -> (length rest <= length s)%nat.
Proof.
  unfold parse_number. intros H.
  match type of H with
  | context [let '(_, _) := ?x in _] =>
      assert (Hs1 : (length (snd x) <= length s)%nat);
      [|destruct x as [neg s1]]
  end.
  { destruct s as [|m r]; [simpl; lia|]. destruct (m =? 0x2D); simpl; lia. }
  cbn [snd] in Hs1.
  match type of H with
  | context [mbind _ ?x] =>
      assert (Hs2 : forall int s2, x = Some (int, s2) ->
                     (length s2 <= length s1)%nat)
  end.
  { intros int s2 E. destruct s1 as [|d r]; [discriminate|].
    destruct (d =? 0x30); [injection E as _ <-; simpl; lia|].
    destruct (is_digit d); [|discriminate].
    injection E as E. exact (take_digits_rest (d :: r) int s2 E). }
  crack; try specialize (Hs2 _ _ eq_refl);
    repeat match goal with
    | H : parse_fraction _ = Some _ |- _ => apply parse_fraction_length in H
    | H : parse_exponent _ = Some _ |- _ => apply parse_exponent_length in H
    end; lia.
Qed.

Lemma parse_literal_length (s : jsstring) (v : jsval) (rest : jsstring) :
  parse_literal s = Some (v, rest) -> (length rest <= length s)%nat.
Proof.
  unfold parse_literal. intros H.
  repeat match goal with
  | H : context [strip_prefix ?p s] |- _ =>
      let E := fresh in
      destruct (strip_prefix p s) eqn:E;
      [apply strip_prefix_length in E; injection H as _ <-; exact E|]
  end.
  apply parse_number_length in H. exact H.
Qed.

Ltac lengths :=
  repeat match goal with
  | H : skip_ws _ = _ :: _ |- _ => apply skip_ws_cons in H
  | H : parse_chars _ = Some _ |- _ => apply parse_chars_length in H
  | H : parse_literal _ = Some _ |- _ => apply parse_literal_length in H
  end.

Lemma parse_lengths (f : nat) :
  (forall s v rest, parse_value f s = Some (v, rest) ->
                    (length rest <= length s)%nat)
  /\ (forall s ms rest, parse_members f s = Some (ms, rest) ->
                        (length rest <= length s)%nat)
  /\ (forall s vs rest, parse_elements f s = Some (vs, rest) ->
                        (length rest <= length s)%nat).
Proof.
  induction f as [|f (IHv & IHm & IHe)]; [repeat split; discriminate|].
  repeat split; intros s x rest H.
  - cbn [parse_value] in H. crack;
      repeat match goal with
      | H : parse_members f _ = Some _ |- _ => apply IHm in H
      | H : parse_elements f _ = Some _ |- _ => apply IHe in H
      end; lengths; simpl in *; lia.
  - cbn [parse_members] in H. crack;
      repeat match goal with
      | H : parse_members f _ = Some _ |- _ => apply IHm in H
      | H : parse_value f _ = Some _ |- _ => apply IHv in H
      end; lengths; simpl in *; lia.
  - cbn [parse_elements] in H. crack;
      repeat match goal with
      | H : parse_elements f _ = Some _ |- _ => apply IHe in H
      | H : parse_value f _ = Some _ |- _ => apply IHv in H
      end; lengths; simpl in *; lia.
Qed.

(** Add, once each, what the hypotheses say about lengths. *)
Ltac note P :=
  lazymatch goal with
  | _ : P |- _ => fail
  | _ => assert P
  end.

Ltac length_facts :=
  repeat match goal with
  | H : skip_ws ?s = ?c :: ?r |- _ =>
      note (S (length r) <= length s)%nat; [exact (skip_ws_cons s r c H)|]
  | H : parse_chars ?s = Some (?t, ?r) |- _ =>
      note (length r < length s)%nat; [exact (parse_chars_length s t r H)|]
  | H : parse_value ?f ?s = Some (?v, ?r) |- _ =>
      note (length r <= length s)%nat;
      [exact (proj1 (parse_lengths f) s v r H)|]
  end.

(** Follow in the goal the path the hypotheses took, carrying the inner
    calls over to the other fuel. *)
Ltac replay f :=
  length_facts;
  repeat first
    [ reflexivity
    | assumption
    | match goal with
      | H : skip_ws ?x = _ |- context [skip_ws ?x] => rewrite H
      | H : N.eqb ?a ?b = _ |- context [N.eqb ?a ?b] => rewrite H
      | H : parse_chars ?x = _ |- context [parse_chars ?x] => rewrite H
      | C : carries ?parse f _ _, H : ?parse f ?x = Some _ |- _ =>
          apply C in H; [rewrite H | simpl in *; lia]
      end
    | progress cbn [mbind option_bind] ].

Lemma carries_value_step (f f1 n : nat) :
  carries parse_members f f1 n -> carries parse_elements f f1 n ->
  carries parse_value (S f) (S f1) (S n).
Proof.
  intros Hm He s r L H. cbn [parse_value] in H |- *. crack; replay f.
Qed.

Lemma carries_members_step (f f1 n : nat) :
  carries parse_value f f1 n -> carries parse_members f f1 n ->
  carries parse_members (S f) (S f1) (S n).
Proof.
  intros Hv Hm s r L H. cbn [parse_members] in H |- *. crack; replay f.
Qed.

Lemma carries_elements_step (f f1 n : nat) :
  carries parse_value f f1 (S n) -> carries parse_elements f f1 n ->
  carries parse_elements (S f) (S f1) (S n).
Proof.
  intros Hv He s r L H. cbn [parse_elements] in H |- *. crack; replay f.
Qed.

Lemma carries_trans {A : Type} (parse : nat -> jsstring -> option A)
    (f f1 f2 n : nat) :
  carries parse f f1 n -> carries parse f1 f2 n -> carries parse f f2 n.
Proof. intros H1 H2 s r L H. apply H2, H1; assumption. Qed.

Lemma carries_empty (f f1 : nat) :
  carries parse_value f f1 0 /\ carries parse_members f f1 0
  /\ carries parse_elements f f1 0.
Proof.
  repeat split; intros [|c s] r L H; simpl in L; try lia;
    destruct f as [|[|f]]; discriminate.
Qed.

Lemma fuel_step (f n : nat) :
  carries parse_value f (S f) n /\ carries parse_members f (S f) n
  /\ carries parse_elements f (S f) n.
Proof.
  revert n. induction f as [|f IH]; intros n.
  - repeat split; intros s r _ H; discriminate.
  - destruct n as [|n]; [apply carries_empty|].
    destruct (IH n) as (Hv & Hm & He). destruct (IH (S n)) as (Hv' & _).
    split; [|split].
    + apply carries_value_step; assumption.
    + apply carries_members_step; assumption.
    + apply carries_elements_step; assumption.
Qed.

Lemma fuel_mono (f f1 n : nat) :
  (f <= f1)%nat ->
  carries parse_value f f1 n /\ carries parse_members f f1 n
  /\ carries parse_elements f f1 n.
Proof.
  induction 1 as [|f1 _ (Hv & Hm & He)].
  - repeat split; intros s r _ H; exact H.
  - destruct (fuel_step f1 n) as (Sv & Sm & Se).
    repeat split; eapply carries_trans; eassumption.
Qed.

(** Fuel twice the length of the text (and a little) is never short. *)
Lemma fuel_enough (f n : nat) :
  carries parse_value f (2 * n + 2) n
  /\ carries parse_members f (2 * n + 2) n
  /\ carries parse_elements f (2 * n + 3) n.
Proof.
  revert n. induction f as [|f IH]; intros n.
  - repeat split; intros s r _ H; discriminate.
  - destruct n as [|n].
    { split; [apply carries_empty | split; apply carries_empty]. }
    destruct (IH n) as (Hv & Hm & He). destruct (IH (S n)) as (Hv' & _).
    destruct (fuel_mono (2 * n + 2) (2 * n + 3) n) as (Mv & Mm & _); [lia|].
    destruct (fuel_mono (2 * n + 3) (2 * n + 4) n) as (_ & _ & Me); [lia|].
    replace (2 * S n + 2)%nat with (S (2 * n + 3)) by lia.
    replace (2 * S n + 3)%nat with (S (2 * n + 4)) by lia.
    split; [|split].
    + apply carries_value_step; [eapply carries_trans; eassumption | assumption].
    + apply carries_members_step; eapply carries_trans; eassumption.
    + apply carries_elements_step.
      * replace (2 * n + 4)%nat with (2 * S n + 2)%nat by lia. exact Hv'.
      * eapply carries_trans; eassumption.
Qed.

(** [JSON_parse] gives the value that any amount of fuel gives. *)
Lemma JSON_parse_any_fuel (f : nat) (text : jsstring) (v : jsval)
    (rest : jsstring) :
  parse_value f text = Some (v, rest) ->
  skip_ws rest = [] ->
  JSON_parse text = Some v.
Proof.
  intros H Hrest. unfold JSON_parse.
  destruct (fuel_enough f (length text)) as (Hv & _).
  rewrite (Hv text (v, rest)); [|lia|exact H].
  cbn [mbind option_bind]. rewrite Hrest. reflexivity.
Qed.

(* ================================================================= *)
(** ** UTF-8 there and back *)

Lemma utf8_decode_code_point (cp : N) (rest : bytes) :
  cp < 0x110000 -> ~ (0xD800 <= cp <= 0xDFFF) ->
  utf8_decode_from None (utf8_of_code_point cp ++ rest)
  = utf16_of_code_point cp ++ utf8_decode_from None rest.
Proof.
  intros Hmax Hsur. unfold utf8_of_code_point.
  destruct (N.ltb_spec cp 0x80) as [H1|H1];
    [|destruct (N.ltb_spec cp 0x800) as [H2|H2];
      [|destruct (N.ltb_spec cp 0x10000) as [H3|H3]]].
  - cbn [app utf8_decode_from]. unfold decode_lead, utf16_of_code_point.
    settle_comparisons. reflexivity.
  - cbn [app utf8_decode_from]. unfold decode_lead.
    settle_comparisons. cbn [andb app lower upper needed seen utf8_decode_from].
    settle_comparisons. cbn [andb].
    replace ((0xC0 + cp / 64 - 0xC0) * 64 + (0x80 + cp mod 64 - 0x80)) with cp by lia.
    reflexivity.
  - cbn [app utf8_decode_from]. unfold decode_lead.
    settle_comparisons. cbn [andb app lower upper needed seen utf8_decode_from].
    destruct (N.eqb_spec (0xE0 + cp / 4096) 0xE0);
      destruct (N.eqb_spec (0xE0 + cp / 4096) 0xED);
      settle_comparisons; cbn [andb]; f_equal; f_equal; lia.
  - cbn [app utf8_decode_from]. unfold decode_lead.
    settle_comparisons. cbn [andb app lower upper needed seen utf8_decode_from].
    destruct (N.eqb_spec (0xF0 + cp / 262144) 0xF0);
      destruct (N.eqb_spec (0xF0 + cp / 262144) 0xF4);
      settle_comparisons; cbn [andb]; f_equal; f_equal; lia.
Qed.

Lemma plain_ascii (c : N) : c < 0x80 -> plain c.
Proof.
  intros Hc. unfold plain, code_unit, is_lead, is_trail.
  settle_comparisons. repeat split; first [lia | reflexivity].
Qed.

Lemma plain_lit (s : string) : Forall plain (lit s).
Proof.
  unfold lit.
  induction (list_ascii_of_string s) as [|a l IH]; simpl; constructor; [|exact IH].
  destruct (N.ltb_spec (N_of_ascii a) 0x80) as [H|H]; [apply plain_ascii, H|].
  pose proof (N_ascii_bounded a).
  unfold plain, code_unit, is_lead, is_trail. settle_comparisons.
  repeat split; first [lia | reflexivity].
Qed.

Lemma plain_quote_unit (c : N) : code_unit c -> Forall plain (quote_unit c).
Proof.
  intros Hc. unfold quote_unit.
  repeat match goal with
  | |- context [if N.eqb c ?k then _ else _] =>
      destruct (N.eqb_spec c k) as [->|?];
      [ first [apply plain_lit | repeat constructor; apply plain_ascii; lia] | ]
  end.
  destruct ((c <? 0x20) || is_lead c || is_trail c) eqn:E.
  - unfold UnicodeEscape, hex_digit.
    repeat constructor; apply plain_ascii;
      repeat match goal with
      | |- context [if ?a <? 10 then _ else _] => destruct (N.ltb_spec a 10)
      end; lia.
  - apply orb_false_elim in E as [E Et]. apply orb_false_elim in E as [_ El].
    repeat constructor; assumption.
Qed.

Lemma utf16_text_app (a b : jsstring) :
  utf16_text a -> utf16_text b -> utf16_text (a ++ b).
Proof.
  induction 1; intros Hb; simpl; [assumption | |].
  - apply text_plain; auto.
  - apply text_pair; auto.
Qed.

Lemma utf16_text_plain (a : jsstring) : Forall plain a -> utf16_text a.
Proof.
  induction 1; [apply text_nil | apply text_plain; assumption].
Qed.

Lemma utf16_text_quote_units (s : jsstring) :
  wf_jsstring s -> utf16_text (quote_units s).
Proof.
  remember (length s) as n eqn:Hn. revert s Hn.
  induction n as [n IH] using lt_wf_ind. intros s Hn Hwf.
  destruct s as [|c [|d s']].
  - apply text_nil.
  - inversion Hwf; subst. apply utf16_text_plain, plain_quote_unit. assumption.
  - inversion Hwf as [|? ? Hc Hwf']; subst.
    change (quote_units (c :: d :: s'))
      with (if is_lead c && is_trail d then c :: d :: quote_units s'
            else quote_unit c ++ quote_units (d :: s')).
    destruct (is_lead c && is_trail d) eqn:E.
    + apply andb_prop in E as [El Et]. inversion Hwf'; subst.
      apply text_pair; [assumption | assumption | ].
      apply (IH (length s')); [simpl; lia | reflexivity | assumption].
    + apply utf16_text_app.
      * apply utf16_text_plain, plain_quote_unit. assumption.
      * apply (IH (length (d :: s'))); [simpl; lia | reflexivity | assumption].
Qed.

Lemma utf16_text_JSON_stringify (creds : option Credentials) :
  (forall c, creds = Some c -> wf_credentials c) ->
  utf16_text (JSON_stringify creds).
Proof.
  intros Hwf. destruct creds as [c|]; simpl.
  - destruct (Hwf c eq_refl) as (Hi & Ha & Hr). unfold QuoteJSONString.
    repeat first
      [ apply utf16_text_app
      | apply utf16_text_quote_units; first [assumption | apply wf_jsstring_lit]
      | apply utf16_text_plain, plain_lit
      | apply text_plain; [apply plain_ascii; lia | ]
      | apply text_nil ].
  - apply utf16_text_plain, plain_lit.
Qed.

Lemma utf8_encode_plain (c : N) (t : jsstring) :
  plain c -> utf8_encode (c :: t) = utf8_of_code_point c ++ utf8_encode t.
Proof.
  intros (_ & Hl & Ht). simpl. unfold utf8_of_unit. rewrite Hl, Ht. simpl.
  destruct t; [rewrite app_nil_r|]; reflexivity.
Qed.

(** What Node writes for a text without lone surrogates, it reads back. *)
Lemma utf8_decode_encode (s : jsstring) :
  utf16_text s -> utf8_decode (utf8_encode s) = s.
Proof.
  unfold utf8_decode.
  induction 1 as [|c t Hc _ IH|c d t Hl Ht _ IH].
  - reflexivity.
  - rewrite utf8_encode_plain by assumption.
    destruct Hc as (Hc & Hl & Ht). unfold code_unit in Hc.
    rewrite utf8_decode_code_point.
    + rewrite IH. unfold utf16_of_code_point. settle_comparisons. reflexivity.
    + lia.
    + unfold is_lead, is_trail in *.
      apply andb_false_iff in Hl, Ht. rewrite !N.leb_gt in Hl, Ht. lia.
  - change (utf8_encode (c :: d :: t))
      with (if is_lead c && is_trail d
            then utf8_of_code_point
                   (0x10000 + (c - 0xD800) * 1024 + (d - 0xDC00))
                   ++ utf8_encode t
            else utf8_of_unit c ++ utf8_encode (d :: t)).
    rewrite Hl, Ht. cbn [andb].
    unfold is_lead, is_trail in *.
    apply andb_prop in Hl as [Hl1 Hl2]. apply andb_prop in Ht as [Ht1 Ht2].
    apply N.leb_le in Hl1, Hl2, Ht1, Ht2.
    rewrite utf8_decode_code_point by lia. rewrite IH.
    unfold utf16_of_code_point. settle_comparisons.
    simpl. f_equal; [lia | f_equal; lia].
Qed.

(* ================================================================= *)
(** ** The process monad and the verify loop *)

(* lemmas *)
Lemma after_after (p : process) (e1 e2 : list event) :
  after (after p e1) e2 = after p (e1 ++ e2).
Proof. unfold after. simpl. rewrite app_assoc. reflexivity. Qed.

Lemma after_nil (p : process) : after p [] = p.
Proof. destruct p. unfold after. simpl. rewrite app_nil_r. reflexivity. Qed.

Lemma run_emit (e : event) (p : process) : emit e p = (Returned (), after p [e]).
Proof. reflexivity. Qed.

Lemma run_bind {A B : Type} (m : M A) (f : A -> M B) (p : process) :
  (m ≫= f) p
  = match m p with
    | (Returned a, p') => f a p'
    | (Threw err, p') => (Threw err, p')
    | (Pending, p') => (Pending, p')
    end.
Proof. reflexivity. Qed.

Ltac run :=
  repeat first
    [ rewrite run_bind
    | rewrite run_emit
    | rewrite after_after
    | progress unfold log, suspend, throw, mret, M_ret
    | progress cbn [app] ].

Lemma count_app (f : event -> bool) (e1 e2 : list event) :
  count f (e1 ++ e2) = (count f e1 + count f e2)%nat.
Proof. unfold count. rewrite List.filter_app, length_app. reflexivity. Qed.

Lemma verify_loop_waits (p : process) :
  verify_loop [] p = (Pending, after p [AwaitCode]).
Proof. reflexivity. Qed.

Lemma verify_loop_rejected (sub : Submission) (later : list Submission) (p : process) :
  rejected sub = true ->
  exists evs,
    verify_loop (sub :: later) p = verify_loop later (after p evs)
    /\ forallb retry_event evs = true
    /\ count is_AwaitCode evs = 1%nat
    /\ In (Redirect (lit "/?error=bad+code")) evs.
Proof.
  unfold rejected. intros Hrej.
  destruct (verify_answer sub) as [[]|] eqn:Hv; [|discriminate].
  destruct (authenticated_user sub) as [|err] eqn:Ha; [discriminate|].
  eexists. split; [|split; [|split]].
  - cbn [verify_loop]. rewrite Hv, Ha. run. reflexivity.
  - reflexivity.
  - reflexivity.
  - simpl. tauto.
Qed.

Lemma verify_loop_rejects (bad rest : list Submission) (p : process) :
  forallb rejected bad = true ->
  exists evs,
    verify_loop (bad ++ rest) p = verify_loop rest (after p evs)
    /\ forallb retry_event evs = true
    /\ count is_AwaitCode evs = length bad.
Proof.
  revert p. induction bad as [|sub bad IH]; intros p Hbad.
  - exists []. rewrite after_nil. auto.
  - simpl in Hbad. apply andb_prop in Hbad as [Hsub Hbad].
    destruct (verify_loop_rejected sub (bad ++ rest) p Hsub) as (e1 & E1 & Q1 & C1 & _).
    destruct (IH (after p e1) Hbad) as (e2 & E2 & Q2 & C2).
    exists (e1 ++ e2). rewrite <- after_after.
    split; [|split].
    + rewrite <- app_comm_cons, E1. exact E2.
    + rewrite forallb_app, Q1, Q2. reflexivity.
    + rewrite count_app, C1, C2. reflexivity.
Qed.

Lemma verify_loop_accepted (sub : Submission) (later : list Submission)
    (p : process) (user : CognitoUser) :
  accepted sub = Some user ->
  exists evs,
    verify_loop (sub :: later) p
    = (Returned (getCredentialsFromSession user), after p evs)
    /\ existsb is_Listen evs = false
    /\ existsb is_WriteFile evs = false
    /\ count is_AwaitCode evs = 1%nat
    /\ In (Redirect (lit "/success.html")) evs
    /\ In (CloseAfter 7000) evs.
Proof.
  unfold accepted. intros Hacc.
  destruct (verify_answer sub) as [[]|] eqn:Hv; [|discriminate].
  destruct (authenticated_user sub) as [u|] eqn:Ha; [|discriminate].
  injection Hacc as ->.
  eexists. split; [|split; [|split; [|split; [|split]]]].
  - cbn [verify_loop]. rewrite Hv, Ha. run. reflexivity.
  - reflexivity.
  - reflexivity.
  - reflexivity.
  - simpl. tauto.
  - simpl. tauto.
Qed.

(** When the call that submits the answer itself fails, the rejection
    is raised inside the event handler, outside its [try]: the promise
    the loop awaits is never settled and later submissions find no
    handler for them. *)
Lemma verify_loop_answer_call_fails (sub : Submission)
    (later : list Submission) (p : process) (err : jsstring) :
  verify_answer sub = Rejects err ->
  exists evs,
    verify_loop (sub :: later) p = (Pending, after p evs)
    /\ In (UnhandledRejection err) evs
    /\ count is_AwaitCode evs = 1%nat.
Proof.
  intros Hv. eexists. split; [|split].
  - cbn [verify_loop]. rewrite Hv. run. reflexivity.
  - simpl. tauto.
  - reflexivity.
Qed.

(** Whatever is submitted, the loop leaves memory and disk alone, makes
    no sign-in call, and is left only through a code that was accepted. *)
Lemma verify_loop_any (subs : list Submission) (p : process) :
  exists evs,
    snd (verify_loop subs p) = after p evs
    /\ existsb is_Listen evs = false
    /\ existsb is_WriteFile evs = false
    /\ existsb is_StoredSession evs = false
    /\ match fst (verify_loop subs p) with
       | Returned credentials =>
           exists bad good later user,
             subs = bad ++ good :: later
             /\ forallb rejected bad = true
             /\ accepted good = Some user
             /\ credentials = getCredentialsFromSession user
       | Threw _ => False
       | Pending => existsb is_CloseAfter evs = false
       end.
Proof.
  revert p. induction subs as [|sub later IH]; intros p.
  - exists [AwaitCode]. repeat split; reflexivity.
  - cbn [verify_loop]. run.
    destruct (verify_answer sub) as [[]|err] eqn:Hv.
    + destruct (authenticated_user sub) as [u|err] eqn:Ha.
      * run. eexists. repeat split.
        exists [], sub, later, u. unfold accepted. rewrite Hv, Ha. auto.
      * run. destruct (IH (after p
            [AwaitCode;
             Log Info (lit "Input received: " ++ template (code sub) ++ lit ". Verifying...");
             SendCustomChallengeAnswer
               (lit "answerType:verifyCode,medium:phone,codeType:login,code:" ++ template (code sub));
             CurrentAuthenticatedUser;
             Log Error (lit "Failed to verify mfa code: " ++ err ++ lit " - Try again.");
             Redirect (lit "/?error=bad+code")])) as (evs & E & L & W & S & R).
        eexists. rewrite E, after_after. split; [reflexivity|].
        rewrite !existsb_app, L, W, S. repeat split.
        destruct (fst (verify_loop later _)) as [cr| |].
        -- destruct R as (bad & good & later' & user & -> & Hb & Hg & ->).
           exists (sub :: bad), good, later', user. repeat split; auto.
           simpl. unfold rejected at 1. rewrite Hv, Ha. exact Hb.
        -- exact R.
        -- rewrite R. reflexivity.
    + run. eexists. repeat split.
Qed.

Lemma existsSync_Some (fs : filesystem) (path : jsstring) (content : bytes) :
  fs !! path = Some content -> existsSync fs path = true.
Proof. intros H. unfold existsSync. apply bool_decide_eq_true_2. eauto. Qed.

Lemma existsSync_None (fs : filesystem) (path : jsstring) :
  fs !! path = None -> existsSync fs path = false.
Proof.
  intros H. unfold existsSync. apply bool_decide_eq_false_2.
  rewrite H. intros [? ?]. discriminate.
Qed.

Lemma load_absent (path : jsstring) (p : process) :
  disk p !! path = None -> load_savedCreds path p = (Returned None, p).
Proof.
  intros H. unfold load_savedCreds. rewrite existsSync_None by exact H. reflexivity.
Qed.

Lemma load_present (path : jsstring) (p : process) (content : bytes) :
  disk p !! path = Some content ->
  load_savedCreds path p
  = match JSON_parse (utf8_decode content) with
    | Some v => (Returned (Some v), p)
    | None => (Threw (lit "SyntaxError"), p)
    end.
Proof.
  intros H. unfold load_savedCreds, readFileSync.
  rewrite (existsSync_Some _ _ _ H), H. reflexivity.
Qed.

Lemma run_save (path : jsstring) (creds : option Credentials) (p : process) :
  save path creds p
  = (Returned (),
     after (mkProcess (mem_idToken p)
                      (writeFileSync (disk p) path (JSON_stringify creds))
                      (trace p))
           [WriteFile path (JSON_stringify creds)]).
Proof. reflexivity. Qed.

Lemma run_finish (credentials : option Credentials) (p : process) :
  finish credentials p
  = (Returned (),
     after (mkProcess (idToken <$> credentials) (disk p) (trace p))
           [Log Info (lit "Logged in!")]).
Proof. reflexivity. Qed.

Lemma reauthenticate_signIn_fails (config : Config) (api : Api) (world : World)
    (p : process) (err : jsstring) :
  Auth_signIn world (email config) (password config) = Rejects err ->
  reauthenticate config api world p
  = (Returned (),
     after p [Log Warn (lit "Failed to login with cached tokens, reauthenticating...");
              SignIn (email config) (password config);
              Log Error (lit "Failed to log in: " ++ err
                 ++ lit " - Make sure your username and password are correct.")]).
Proof. intros H. unfold reauthenticate. run. rewrite H. run. reflexivity. Qed.

Lemma reauthenticate_unknown_challenge (config : Config) (api : Api)
    (world : World) (p : process) (user : CognitoUser) :
  Auth_signIn world (email config) (password config) = Resolves user ->
  challengeName user <> Some (lit "CUSTOM_CHALLENGE") ->
  reauthenticate config api world p
  = (Returned (),
     after (mkProcess None (disk p) (trace p))
       [Log Warn (lit "Failed to login with cached tokens, reauthenticating...");
        SignIn (email config) (password config);
        Log Error (lit "Unknown auth challenge name "
                     ++ template (challengeName user));
        Log Info (lit "Logged in!")]).
Proof.
  intros H Hc. unfold reauthenticate. run. rewrite H.
  rewrite bool_decide_eq_false_2 by exact Hc. run. rewrite run_finish.
  unfold after. simpl. rewrite <- !app_assoc. reflexivity.
Qed.

Lemma reauthenticate_custom_challenge (config : Config) (api : Api)
    (world : World) (p : process) (user : CognitoUser) :
  Auth_signIn world (email config) (password config) = Resolves user ->
  challengeName user = Some (lit "CUSTOM_CHALLENGE") ->
  reauthenticate config api world p
  = mfa_challenge config api world
      (after p [Log Warn (lit "Failed to login with cached tokens, reauthenticating...");
                SignIn (email config) (password config)]).
Proof.
  intros H Hc. unfold reauthenticate. run. rewrite H.
  rewrite bool_decide_eq_true_2 by exact Hc. reflexivity.
Qed.

Lemma mfa_challenge_listens (config : Config) (api : Api) (world : World)
    (p : process) :
  generate_code world = Resolves () ->
  mfa_challenge config api world p
  = (verify_loop (submissions world) ≫= mfa_complete api world)
      (after p [SendCustomChallengeAnswer
                  (lit "answerType:generateCode,medium:phone,codeType:login");
                Log Info (lit "Generated mfa code, waiting for input");
                Listen (mfaPort config);
                Log Info (lit "MFA server listening on http://" ++ ip_address world
                   ++ lit ":" ++ N_to_jsstring (mfaPort config)
                   ++ lit "/index.html")]).
Proof.
  intros H. unfold mfa_challenge. rewrite run_bind, run_emit.
  rewrite run_bind. rewrite H. unfold await. run. reflexivity.
Qed.

Lemma mfa_complete_saves (api : Api) (world : World) (p : process)
    (credentials : option Credentials) (user : CognitoUser) :
  final_user world = Resolves user ->
  mfa_complete api world credentials p
  = (Returned (),
     mkProcess (idToken <$> credentials)
       (writeFileSync (disk p) (kwiksetSavePath api)
          (JSON_stringify (getCredentialsFromSession user)))
       (trace p ++
        [Log Info (lit "Code verified!"); CurrentAuthenticatedUser;
         WriteFile (kwiksetSavePath api)
           (JSON_stringify (getCredentialsFromSession user));
         Log Debug (lit "Credentials saved!");
         Log Info (lit "Logged in!")])).
Proof.
  intros H. unfold mfa_complete. run. rewrite H. unfold await. run.
  rewrite run_save. run. rewrite run_finish.
  unfold after. simpl. rewrite <- !app_assoc. reflexivity.
Qed.

Lemma kwiksetLogin_no_file (constants : Constants) (config : Config) (api : Api)
    (world : World) (p : process) :
  disk p !! kwiksetSavePath api = None ->
  kwiksetLogin constants config api world p
  = reauthenticate config api world (after p (startup_events constants api)).
Proof.
  intros H. unfold kwiksetLogin. run.
  rewrite load_absent by exact H. run. reflexivity.
Qed.

Lemma kwiksetLogin_file (constants : Constants) (config : Config) (api : Api)
    (world : World) (p : process) (content : bytes) (v : jsval) :
  disk p !! kwiksetSavePath api = Some content ->
  JSON_parse (utf8_decode content) = Some v ->
  kwiksetLogin constants config api world p
  = (cached_login world config (Some v) ≫= fun credentials =>
       match credentials with
       | Some _ => finish credentials
       | None => reauthenticate config api world
       end) (after p (startup_events constants api)).
Proof.
  intros H Hv. unfold kwiksetLogin. run.
  rewrite (load_present _ _ content) by exact H. rewrite Hv. run. reflexivity.
Qed.

Lemma cached_login_session (world : World) (config : Config) (v : jsval)
    (p : process) (user : CognitoUser) :
  truthy (Some v) = true ->
  stored_user world (email config)
    (get_property v (lit "idToken")) (get_property v (lit "accessToken"))
    (get_property v (lit "refreshToken")) = Resolves user ->
  cached_login world config (Some v) p
  = (Returned (getCredentialsFromSession user),
     after p [StoredSession (email config)
                (get_property v (lit "idToken"))
                (get_property v (lit "accessToken"))
                (get_property v (lit "refreshToken"))]).
Proof.
  intros Ht Hu. unfold cached_login. rewrite Ht.
  unfold logInWithStoredCreds. run. cbn [mbind option_bind].
  rewrite Hu. reflexivity.
Qed.

Lemma kwiksetLogin_without_cached_session (constants : Constants)
    (config : Config) (api : Api) (world : World) (p : process) :
  cached_session_absent_or_invalid world config api p ->
  exists evs,
    kwiksetLogin constants config api world p
    = reauthenticate config api world (after p evs)
    /\ forallb startup_event evs = true.
Proof.
  intros [Hno | (content & v & Hfile & Hv & [Hfalsy | (Ht & user & Hu & Hs)])].
  - exists (startup_events constants api).
    split; [apply kwiksetLogin_no_file, Hno | reflexivity].
  - exists (startup_events constants api).
    split; [|reflexivity].
    rewrite (kwiksetLogin_file _ _ _ _ _ content v) by assumption.
    rewrite run_bind. unfold cached_login. rewrite Hfalsy. reflexivity.
  - eexists. split.
    + rewrite (kwiksetLogin_file _ _ _ _ _ content v) by assumption.
      rewrite run_bind.
      rewrite (cached_login_session _ _ _ _ user) by assumption.
      unfold getCredentialsFromSession. rewrite Hs. rewrite after_after. reflexivity.
    + reflexivity.
Qed.

Lemma kwiksetLogin_cached_session (constants : Constants) (config : Config)
    (api : Api) (world : World) (p : process) (content : bytes) (v : jsval)
    (user : CognitoUser) (c : Credentials) :
  disk p !! kwiksetSavePath api = Some content ->
  JSON_parse (utf8_decode content) = Some v ->
  truthy (Some v) = true ->
  stored_user world (email config)
    (get_property v (lit "idToken")) (get_property v (lit "accessToken"))
    (get_property v (lit "refreshToken")) = Resolves user ->
  getCredentialsFromSession user = Some c ->
  exists evs,
    kwiksetLogin constants config api world p
    = (Returned (), mkProcess (Some (idToken c)) (disk p) (trace p ++ evs))
    /\ forallb startup_event evs = true.
Proof.
  intros Hfile Hv Ht Hu Hc. eexists. split.
  - rewrite (kwiksetLogin_file _ _ _ _ _ content v) by assumption.
    rewrite run_bind.
    rewrite (cached_login_session _ _ _ _ user) by assumption.
    rewrite Hc, after_after, run_finish. unfold after. simpl.
    rewrite <- !app_assoc. reflexivity.
  - reflexivity.
Qed.

Lemma none_of (f g : event -> bool) (evs : list event) :
  (forall e, g e = true -> f e = false) ->
  forallb g evs = true -> existsb f evs = false.
Proof.
  intros Hfg. induction evs as [|e evs IH]; [reflexivity|]. simpl. intros H.
  apply andb_prop in H as [He H]. rewrite (Hfg e He), (IH H). reflexivity.
Qed.

Lemma count_none (f : event -> bool) (evs : list event) :
  existsb f evs = false -> count f evs = 0%nat.
Proof.
  unfold count. induction evs as [|e evs IH]; [reflexivity|]. simpl. intros H.
  apply orb_false_elim in H as [He H]. rewrite He. exact (IH H).
Qed.

(** An event of one class is none of another kind. *)
Ltac other_kind := intros []; simpl; intros; first [reflexivity | discriminate].

Lemma kwiksetLogin_cached (constants : Constants) (config : Config)
    (api : Api) (world : World) (p : process) (c : Credentials) :
  cached_session_valid world config api p c ->
  exists evs,
    kwiksetLogin constants config api world p
    = (Returned (), mkProcess (Some (idToken c)) (disk p) (trace p ++ evs))
    /\ forallb startup_event evs = true.
Proof.
  intros (content & v & user & Hfile & Hv & Ht & Hu & Hc).
  exact (kwiksetLogin_cached_session constants config api world p content v
           user c Hfile Hv Ht Hu Hc).
Qed.

Lemma kwiksetLogin_mfa (constants : Constants) (config : Config) (api : Api)
    (world : World) (p : process) :
  cached_session_absent_or_invalid world config api p ->
  custom_challenge_issued world config ->
  exists evs,
    kwiksetLogin constants config api world p
    = (verify_loop (submissions world) ≫= mfa_complete api world) (after p evs)
    /\ count is_Listen evs = 1%nat
    /\ existsb is_CloseAfter evs = false
    /\ existsb is_WriteFile evs = false
    /\ existsb is_AwaitCode evs = false.
Proof.
  intros Hcache (user & Hsign & Hch & Hgen).
  destruct (kwiksetLogin_without_cached_session constants _ _ _ _ Hcache)
    as (e0 & E0 & S0).
  eexists. split; [|split; [|split; [|split]]].
  - rewrite E0, (reauthenticate_custom_challenge _ _ _ _ user) by assumption.
    rewrite mfa_challenge_listens by assumption.
    rewrite !after_after. reflexivity.
  - rewrite count_app, (count_none is_Listen e0); [reflexivity|].
    apply (none_of _ startup_event); [other_kind | exact S0].
  - rewrite existsb_app, (none_of is_CloseAfter startup_event e0);
      [reflexivity | other_kind | exact S0].
  - rewrite existsb_app, (none_of is_WriteFile startup_event e0);
      [reflexivity | other_kind | exact S0].
  - rewrite existsb_app, (none_of is_AwaitCode startup_event e0);
      [reflexivity | other_kind | exact S0].
Qed.

Ltac event_kinds :=
  repeat first
    [ rewrite existsb_app
    | progress cbn [existsb orb is_Listen is_WriteFile is_CloseAfter
                    is_StoredSession is_SignIn is_AwaitCode] ].

Lemma reauthenticate_any (config : Config) (api : Api) (world : World)
    (p : process) :
  exists evs,
    trace (snd (reauthenticate config api world p)) = trace p ++ evs
    /\ existsb is_StoredSession evs = false
    /\ ((disk (snd (reauthenticate config api world p)) = disk p
         /\ existsb is_WriteFile evs = false)
        \/ (existsb is_WriteFile evs = true /\ mfa_completed world config)).
Proof.
  destruct (Auth_signIn world (email config) (password config))
    as [user|err] eqn:Hsign.
  2:{ rewrite (reauthenticate_signIn_fails _ _ _ _ err) by assumption.
      eexists. split; [reflexivity|]. split; [reflexivity|]. left. split; reflexivity. }
  destruct (decide (challengeName user = Some (lit "CUSTOM_CHALLENGE")))
    as [Hch|Hch].
  2:{ rewrite (reauthenticate_unknown_challenge _ _ _ _ user) by assumption.
      eexists. split; [reflexivity|]. split; [reflexivity|]. left. split; reflexivity. }
  rewrite (reauthenticate_custom_challenge _ _ _ _ user) by assumption.
  destruct (generate_code world) as [[]|err] eqn:Hgen.
  2:{ unfold mfa_challenge. rewrite run_bind, run_emit, run_bind, Hgen.
      cbn [await throw snd trace disk after]. rewrite <- ?app_assoc.
      eexists. split; [reflexivity|]. split; [reflexivity|]. left. split; reflexivity. }
  rewrite mfa_challenge_listens by assumption. rewrite after_after, run_bind.
  match goal with
  | |- context [verify_loop ?subs ?q] =>
      destruct (verify_loop_any subs q) as (ev & E & L & W & S & R);
      destruct (verify_loop subs q) as [o p2]
  end.
  cbn [fst snd] in E, R. subst p2.
  destruct o as [credentials|err|].
  - destruct R as (bad & good & later & u & Hsubs & Hbad & Hgood & _).
    rewrite after_after.
    destruct (final_user world) as [user2|err] eqn:Hfin.
    + rewrite (mfa_complete_saves _ _ _ _ user2) by assumption.
      cbn [snd trace disk after]. rewrite <- ?app_assoc.
      eexists. split; [reflexivity|]. split; [|right; split].
      * event_kinds. rewrite S. reflexivity.
      * event_kinds. rewrite !orb_true_r. reflexivity.
      * split; [exists user; auto|]. split; [|eauto].
        exists bad, good, later, u. auto.
    + unfold mfa_complete. run. rewrite Hfin.
      cbn [await throw snd trace disk after]. rewrite <- ?app_assoc.
      eexists. split; [reflexivity|]. split; [|left; split; [reflexivity|]].
      * event_kinds. rewrite S. reflexivity.
      * event_kinds. rewrite W. reflexivity.
  - destruct R.
  - rewrite after_after. cbn [snd trace disk after]. rewrite <- ?app_assoc.
    eexists. split; [reflexivity|]. split; [|left; split; [reflexivity|]].
    + event_kinds. rewrite S. reflexivity.
    + event_kinds. rewrite W. reflexivity.
Qed.

Lemma kwiksetLogin_any (constants : Constants) (config : Config) (api : Api)
    (world : World) (p : process) :
  exists evs,
    trace (snd (kwiksetLogin constants config api world p)) = trace p ++ evs
    /\ (disk p !! kwiksetSavePath api = None ->
        existsb is_StoredSession evs = false)
    /\ ((disk (snd (kwiksetLogin constants config api world p)) = disk p
         /\ existsb is_WriteFile evs = false)
        \/ (existsb is_WriteFile evs = true
            /\ cached_session_absent_or_invalid world config api p
            /\ mfa_completed world config)).
Proof.
  assert (Hre : forall evs0,
    forallb startup_event evs0 = true ->
    (disk p !! kwiksetSavePath api = None -> existsb is_StoredSession evs0 = false) ->
    cached_session_absent_or_invalid world config api p ->
    kwiksetLogin constants config api world p
    = reauthenticate config api world (after p evs0) ->
    exists evs,
      trace (snd (kwiksetLogin constants config api world p)) = trace p ++ evs
      /\ (disk p !! kwiksetSavePath api = None ->
          existsb is_StoredSession evs = false)
      /\ ((disk (snd (kwiksetLogin constants config api world p)) = disk p
           /\ existsb is_WriteFile evs = false)
          \/ (existsb is_WriteFile evs = true
              /\ cached_session_absent_or_invalid world config api p
              /\ mfa_completed world config))).
  { intros evs0 H0 Hs0 Hinv ->.
    destruct (reauthenticate_any config api world (after p evs0))
      as (evs & E & S & D).
    pose proof (none_of is_WriteFile startup_event evs0) as W0.
    exists (evs0 ++ evs). rewrite E. cbn [after trace disk] in *.
    rewrite <- app_assoc. split; [reflexivity|]. split.
    - intros Hno. rewrite existsb_app, (Hs0 Hno), S. reflexivity.
    - rewrite existsb_app, W0; [|other_kind|exact H0].
      destruct D as [[D W]|[W C]]; [left|right]; auto. }
  destruct (disk p !! kwiksetSavePath api) as [content|] eqn:Hfile.
  2:{ apply (Hre (startup_events constants api)).
      - reflexivity.
      - reflexivity.
      - left. exact Hfile.
      - apply kwiksetLogin_no_file, Hfile. }
  destruct (JSON_parse (utf8_decode content)) as [v|] eqn:Hv.
  2:{ unfold kwiksetLogin. run. rewrite (load_present _ _ content) by exact Hfile.
      rewrite Hv. cbn [snd trace disk after].
      eexists. split; [reflexivity|]. split; [discriminate|].
      left. split; reflexivity. }
  destruct (truthy (Some v)) eqn:Ht.
  2:{ apply (Hre (startup_events constants api)).
      - reflexivity.
      - reflexivity.
      - right. exists content, v. auto.
      - rewrite (kwiksetLogin_file _ _ _ _ _ content v) by assumption.
        rewrite run_bind. unfold cached_login. rewrite Ht. reflexivity. }
  destruct (stored_user world (email config)
              (get_property v (lit "idToken"))
              (get_property v (lit "accessToken"))
              (get_property v (lit "refreshToken"))) as [user|err] eqn:Hu.
  2:{ rewrite (kwiksetLogin_file _ _ _ _ _ content v) by assumption.
      rewrite run_bind. unfold cached_login. rewrite Ht.
      unfold logInWithStoredCreds. run. cbn [mbind option_bind]. rewrite Hu.
      cbn [await throw snd trace disk after]. rewrite <- ?app_assoc.
      eexists. split; [reflexivity|]. split; [discriminate|].
      left. split; reflexivity. }
  destruct (getSession user) as [|i a r] eqn:Hs.
  - eapply Hre; [| |right; exists content, v; eauto 10|].
    3:{ rewrite (kwiksetLogin_file _ _ _ _ _ content v) by assumption.
        rewrite run_bind.
        rewrite (cached_login_session _ _ _ _ user) by assumption.
        unfold getCredentialsFromSession. rewrite Hs. rewrite after_after.
        reflexivity. }
    + reflexivity.
    + discriminate.
  - destruct (kwiksetLogin_cached constants config api world p
                (mkCredentials i a r)) as (evs & E & S).
    { exists content, v, user. unfold getCredentialsFromSession.
      rewrite Hs. auto. }
    rewrite E. cbn [snd trace disk].
    exists evs. split; [reflexivity|]. split; [discriminate|].
    left. split; [reflexivity|].
    apply (none_of _ startup_event); [other_kind | exact S].
Qed.

(* ================================================================= *)
(** ** The properties *)

(** C1.  When the token file holds a value from which the provider
    restores a session, giving the record [c], [kwiksetLogin] returns
    with the in-memory [idToken] set to [c.idToken], and none of the
    events of the run is a call of [app.listen]. *)
Theorem cached_session_authenticates_without_listener
    (constants : Constants) (config : Config) (api : Api) (world : World)
    (p : process) (c : Credentials) :
  cached_session_valid world config api p c ->
  exists p' evs,
    kwiksetLogin constants config api world p = (Returned (), p')
    /\ mem_idToken p' = Some (idToken c)
    /\ trace p' = trace p ++ evs
    /\ existsb is_Listen evs = false.
Proof.
  intros Hvalid.
  destruct (kwiksetLogin_cached constants config api world p c Hvalid)
    as (evs & E & S).
  eexists. exists evs. split; [exact E|].
  split; [reflexivity|]. split; [reflexivity|].
  apply (none_of _ startup_event); [other_kind | exact S].
Qed.

Lemma cached_session_authenticates_without_listener_witness :
  exists p' evs,
    kwiksetLogin example_constants example_config example_api mfa_world
      process_with_token_file = (Returned (), p')
    /\ mem_idToken p' = Some (lit "id.refreshed")
    /\ trace p' = evs
    /\ existsb is_Listen evs = false.
Proof.
  apply (cached_session_authenticates_without_listener example_constants
           example_config example_api mfa_world process_with_token_file
           refreshed_record).
  eexists _, (credentials_object cached_record), (signed_in refreshed_record).
  split; [vm_compute; reflexivity|].
  split; [vm_compute; reflexivity|]. repeat split.
Defined.

(** C2.  After a login that returned and left the token [t] in memory,
    [apiRequest(log, {path: "lock/status", method: "GET"})] hands to
    [fetch] the header [Authorization: Bearer t], the URL
    [https://API_HOST/lock/status] and the method [GET]. *)
Theorem request_after_login_carries_bearer_token
    (B : Type) (constants : Constants) (config : Config) (api : Api)
    (world : World) (p0 p : process) (t : jsstring) :
  kwiksetLogin constants config api world p0 = (Returned (), p) ->
  mem_idToken p = Some t ->
  let call :=
    apiRequest constants p
      (mkOpts (lit "lock/status") (lit "GET") (None : option B)) in
  header (lit "Authorization") (fetch_headers call) = Some (lit "Bearer " ++ t)
  /\ fetch_url call = lit "https://" ++ API_HOST constants ++ lit "/lock/status"
  /\ fetch_method call = lit "GET".
Proof.
  intros _ Ht. unfold apiRequest. rewrite Ht.
  cbn [fetch_headers fetch_url fetch_method path method template].
  split; [|split; reflexivity].
  vm_compute. reflexivity.
Qed.

Lemma request_after_login_carries_bearer_token_witness :
  let p := snd (kwiksetLogin example_constants example_config example_api
                  mfa_world process_with_token_file) in
  let call :=
    apiRequest example_constants p
      (mkOpts (lit "lock/status") (lit "GET") (None : option jsstring)) in
  header (lit "Authorization") (fetch_headers call)
  = Some (lit "Bearer id.refreshed")
  /\ fetch_url call = lit "https://api.example.invalid/lock/status"
  /\ fetch_method call = lit "GET".
Proof.
  apply (request_after_login_carries_bearer_token jsstring example_constants
           example_config example_api mfa_world process_with_token_file
           (snd (kwiksetLogin example_constants example_config example_api
                   mfa_world process_with_token_file))
           (lit "id.refreshed")).
  - vm_compute. reflexivity.
  - vm_compute. reflexivity.
Defined.

(** C9.  While the in-memory [idToken] is unset, [apiRequest] checks
    nothing: for any options it builds the call to [fetch] as always,
    with the header [Authorization: Bearer undefined]. *)
Theorem request_without_login_sends_bearer_undefined
    (B : Type) (constants : Constants) (p : process) (opts : Opts B) :
  mem_idToken p = None ->
  let call := apiRequest constants p opts in
  header (lit "Authorization") (fetch_headers call)
  = Some (lit "Bearer undefined")
  /\ fetch_url call = lit "https://" ++ API_HOST constants ++ lit "/" ++ path opts
  /\ fetch_method call = method opts
  /\ fetch_body call = body opts.
Proof.
  intros Hnone. unfold apiRequest. rewrite Hnone.
  cbn [fetch_headers fetch_url fetch_method fetch_body template].
  split; [|repeat split; reflexivity].
  vm_compute. reflexivity.
Qed.

Lemma request_without_login_sends_bearer_undefined_witness :
  let call :=
    apiRequest example_constants fresh_process
      (mkOpts (lit "lock/status") (lit "GET") (None : option jsstring)) in
  header (lit "Authorization") (fetch_headers call)
  = Some (lit "Bearer undefined")
  /\ fetch_url call = lit "https://api.example.invalid/lock/status"
  /\ fetch_method call = lit "GET"
  /\ fetch_body call = None.
Proof.
  apply (request_without_login_sends_bearer_undefined jsstring
           example_constants fresh_process
           (mkOpts (lit "lock/status") (lit "GET") None)).
  reflexivity.
Defined.

(** C6.  A record of three JavaScript strings written by the save step
    ([JSON.stringify], [writeFileSync]) is read back by the load step
    ([existsSync], [readFileSync], [JSON.parse]) as an object whose
    [idToken], [accessToken] and [refreshToken] are the same strings,
    code unit by code unit. *)
Theorem saved_record_loads_back
    (r : Credentials) (file : jsstring) (p : process) :
  wf_credentials r ->
  let p' := snd (save file (Some r) p) in
  exists savedCreds,
    load_savedCreds file p' = (Returned (Some savedCreds), p')
    /\ get_property savedCreds (lit "idToken") = Some (JStr (idToken r))
    /\ get_property savedCreds (lit "accessToken") = Some (JStr (accessToken r))
    /\ get_property savedCreds (lit "refreshToken") = Some (JStr (refreshToken r)).
Proof.
  intros Hr p'. exists (credentials_object r). split.
  - rewrite (load_present _ _ (utf8_encode (JSON_stringify (Some r)))).
    + rewrite utf8_decode_encode.
      * rewrite JSON_parse_stringify by exact Hr. reflexivity.
      * apply utf16_text_JSON_stringify. intros c [= <-]. exact Hr.
    + unfold p', save, writeFileSync. cbn [snd disk].
      apply lookup_insert_eq.
  - repeat split; vm_compute; reflexivity.
Qed.

Lemma saved_record_loads_back_witness :
  let p' :=
    snd (save (kwiksetSavePath example_api) (Some awkward_record)
           fresh_process) in
  exists savedCreds,
    load_savedCreds (kwiksetSavePath example_api) p'
    = (Returned (Some savedCreds), p')
    /\ get_property savedCreds (lit "idToken")
       = Some (JStr [0x65; 0x79; 0x4A])
    /\ get_property savedCreds (lit "accessToken")
       = Some (JStr [0x22; 0x5C; 0x0A; 0xE9; 0x20AC])
    /\ get_property savedCreds (lit "refreshToken")
       = Some (JStr [0xD83D; 0xDE00; 0xDC00; 0x00]).
Proof.
  apply (saved_record_loads_back awkward_record
           (kwiksetSavePath example_api) fresh_process).
  unfold wf_credentials, wf_jsstring, code_unit. simpl.
  repeat split; repeat constructor; lia.
Defined.

(** C7.  With no token file at the save path the load step returns with
    [savedCreds] undefined and raises nothing, the conditional of lines
    99-106 yields [null] without calling the Session Bootstrapper, and
    no event of the whole run is a restored-session call. *)
Theorem missing_token_file_is_absent
    (constants : Constants) (config : Config) (api : Api) (world : World)
    (p : process) :
  disk p !! kwiksetSavePath api = None ->
  load_savedCreds (kwiksetSavePath api) p = (Returned None, p)
  /\ cached_login world config None = mret None
  /\ exists evs,
       trace (snd (kwiksetLogin constants config api world p)) = trace p ++ evs
       /\ existsb is_StoredSession evs = false.
Proof.
  intros Hno. split; [apply load_absent, Hno|]. split; [reflexivity|].
  destruct (kwiksetLogin_any constants config api world p) as (evs & E & S & _).
  exists evs. auto.
Qed.

Lemma missing_token_file_is_absent_witness :
  load_savedCreds (kwiksetSavePath example_api) fresh_process
  = (Returned None, fresh_process)
  /\ cached_login mfa_world example_config None = mret None
  /\ exists evs,
       trace (snd (kwiksetLogin example_constants example_config example_api
                     mfa_world fresh_process)) = evs
       /\ existsb is_StoredSession evs = false.
Proof.
  apply (missing_token_file_is_absent example_constants example_config
           example_api mfa_world fresh_process).
  reflexivity.
Defined.

(** C8.  In every run, the disk is as before unless the token file was
    written, and it was written only if the cached session was absent
    or invalid and the MFA challenge was completed; a run that is
    authenticated from a valid cached session writes nothing. *)
Theorem token_file_written_only_on_mfa_completion
    (constants : Constants) (config : Config) (api : Api) (world : World)
    (p : process) :
  exists evs,
    trace (snd (kwiksetLogin constants config api world p)) = trace p ++ evs
    /\ (existsb is_WriteFile evs = false ->
        disk (snd (kwiksetLogin constants config api world p)) = disk p)
    /\ (existsb is_WriteFile evs = true ->
        cached_session_absent_or_invalid world config api p
        /\ mfa_completed world config)
    /\ (forall c,
          cached_session_valid world config api p c ->
          fst (kwiksetLogin constants config api world p) = Returned ()
          /\ mem_idToken (snd (kwiksetLogin constants config api world p))
             = Some (idToken c)
          /\ existsb is_WriteFile evs = false
          /\ disk (snd (kwiksetLogin constants config api world p)) = disk p).
Proof.
  destruct (kwiksetLogin_any constants config api world p) as (evs & E & _ & D).
  exists evs. split; [exact E|]. split; [|split].
  - intros W. destruct D as [[D _]|[W' _]]; [exact D | congruence].
  - intros W. destruct D as [[_ W']|[_ D]]; [congruence | exact D].
  - intros c Hvalid.
    destruct (kwiksetLogin_cached constants config api world p c Hvalid)
      as (evs1 & E1 & S1).
    rewrite E1 in E |- *. cbn [fst snd trace disk mem_idToken] in E |- *.
    apply app_inv_head in E. subst evs1.
    repeat split.
    apply (none_of _ startup_event); [other_kind | exact S1].
Qed.

(** C4.  Without a usable cached session, when [Auth.signIn] rejects,
    [kwiksetLogin] returns normally; memory and disk are as before (no
    token is set, no record is written), the listener is not started,
    sign-in was called once, and the error is in the log. *)
Theorem failed_sign_in_ends_unauthenticated
    (constants : Constants) (config : Config) (api : Api) (world : World)
    (p : process) (err : jsstring) :
  cached_session_absent_or_invalid world config api p ->
  Auth_signIn world (email config) (password config) = Rejects err ->
  exists evs,
    kwiksetLogin constants config api world p = (Returned (), after p evs)
    /\ existsb is_WriteFile evs = false
    /\ existsb is_Listen evs = false
    /\ count is_SignIn evs = 1%nat
    /\ In (Log Error
             (lit "Failed to log in: " ++ err
                ++ lit " - Make sure your username and password are correct."))
          evs.
Proof.
  intros Hcache Hsign.
  destruct (kwiksetLogin_without_cached_session constants _ _ _ _ Hcache)
    as (e0 & E0 & S0).
  eexists. split; [|split; [|split; [|split]]].
  - rewrite E0, (reauthenticate_signIn_fails _ _ _ _ err) by exact Hsign.
    rewrite after_after. reflexivity.
  - rewrite existsb_app, (none_of is_WriteFile startup_event e0);
      [reflexivity | other_kind | exact S0].
  - rewrite existsb_app, (none_of is_Listen startup_event e0);
      [reflexivity | other_kind | exact S0].
  - rewrite count_app, (count_none is_SignIn e0); [reflexivity|].
    apply (none_of _ startup_event); [other_kind | exact S0].
  - apply in_or_app. right. simpl. tauto.
Qed.

(** C5.  Without a usable cached session, when sign-in resolves with a
    [challengeName] other than ["CUSTOM_CHALLENGE"], [kwiksetLogin]
    returns with the in-memory [idToken] undefined and the disk as
    before; the listener is not started and the challenge name is in the
    log as an error. *)
Theorem unknown_challenge_ends_unauthenticated
    (constants : Constants) (config : Config) (api : Api) (world : World)
    (p : process) (user : CognitoUser) :
  cached_session_absent_or_invalid world config api p ->
  Auth_signIn world (email config) (password config) = Resolves user ->
  challengeName user <> Some (lit "CUSTOM_CHALLENGE") ->
  exists evs,
    kwiksetLogin constants config api world p
    = (Returned (), mkProcess None (disk p) (trace p ++ evs))
    /\ existsb is_Listen evs = false
    /\ existsb is_WriteFile evs = false
    /\ In (Log Error (lit "Unknown auth challenge name "
                        ++ template (challengeName user))) evs.
Proof.
  intros Hcache Hsign Hch.
  destruct (kwiksetLogin_without_cached_session constants _ _ _ _ Hcache)
    as (e0 & E0 & S0).
  eexists. split; [|split; [|split]].
  - rewrite E0, (reauthenticate_unknown_challenge _ _ _ _ user) by assumption.
    unfold after. cbn [mem_idToken disk trace]. rewrite <- app_assoc. reflexivity.
  - rewrite existsb_app, (none_of is_Listen startup_event e0);
      [reflexivity | other_kind | exact S0].
  - rewrite existsb_app, (none_of is_WriteFile startup_event e0);
      [reflexivity | other_kind | exact S0].
  - apply in_or_app. right. simpl. tauto.
Qed.

Lemma forallb_firstn {A : Type} (f : A -> bool) (n : nat) (l : list A) :
  forallb f l = true -> forallb f (firstn n l) = true.
Proof.
  revert n. induction l as [|a l IH]; intros [|n]; simpl; auto.
  intros H. apply andb_prop in H as [Ha H]. rewrite Ha, (IH n H). reflexivity.
Qed.

(** The flow once the listener is up, while only rejected codes come. *)
Lemma mfa_rejected_codes_wait (api : Api) (world : World) (p : process)
    (bad : list Submission) :
  forallb rejected bad = true ->
  exists evs,
    (verify_loop bad ≫= mfa_complete api world) p = (Pending, after p evs)
    /\ existsb is_Listen evs = false
    /\ existsb is_CloseAfter evs = false
    /\ existsb is_WriteFile evs = false
    /\ count is_AwaitCode evs = S (length bad).
Proof.
  intros Hbad.
  destruct (verify_loop_rejects bad [] p Hbad) as (evs & E & R & C).
  rewrite app_nil_r in E.
  exists (evs ++ [AwaitCode]). split; [|split; [|split; [|split]]].
  - rewrite run_bind, E, verify_loop_waits, after_after. reflexivity.
  - rewrite existsb_app, (none_of is_Listen retry_event evs);
      [reflexivity | other_kind | exact R].
  - rewrite existsb_app, (none_of is_CloseAfter retry_event evs);
      [reflexivity | other_kind | exact R].
  - rewrite existsb_app, (none_of is_WriteFile retry_event evs);
      [reflexivity | other_kind | exact R].
  - rewrite count_app, C. cbn. lia.
Qed.

(** The flow once the listener is up, when an accepted code follows the
    rejected ones. *)
Lemma mfa_accepted_code_completes (api : Api) (world : World) (p : process)
    (bad later : list Submission) (good : Submission)
    (user user2 : CognitoUser) :
  forallb rejected bad = true ->
  accepted good = Some user ->
  final_user world = Resolves user2 ->
  exists evs,
    (verify_loop (bad ++ good :: later) ≫= mfa_complete api world) p
    = (Returned (),
       mkProcess (idToken <$> getCredentialsFromSession user)
         (writeFileSync (disk p) (kwiksetSavePath api)
            (JSON_stringify (getCredentialsFromSession user2)))
         (trace p ++ evs))
    /\ existsb is_Listen evs = false
    /\ count is_AwaitCode evs = S (length bad)
    /\ In (CloseAfter 7000) evs
    /\ In (WriteFile (kwiksetSavePath api)
             (JSON_stringify (getCredentialsFromSession user2))) evs.
Proof.
  intros Hbad Hgood Hfin.
  destruct (verify_loop_rejects bad (good :: later) p Hbad) as (e1 & E1 & R1 & C1).
  destruct (verify_loop_accepted good later (after p e1) user Hgood)
    as (e2 & E2 & L2 & _ & C2 & _ & Hclose).
  eexists. split; [|split; [|split; [|split]]].
  - rewrite run_bind, E1, E2, after_after.
    rewrite (mfa_complete_saves _ _ _ _ user2) by exact Hfin.
    cbn [after trace disk]. rewrite <- !app_assoc. reflexivity.
  - rewrite !existsb_app, L2, (none_of is_Listen retry_event e1);
      [reflexivity | other_kind | exact R1].
  - rewrite !count_app, C1, C2. cbn. lia.
  - apply in_or_app. right. apply in_or_app. left. exact Hclose.
  - apply in_or_app. right. apply in_or_app. right. simpl. tauto.
Qed.

(** C3, amended.  Once the custom challenge is issued, take codes that
    the provider rejects the way the loop detects it: the answer call
    resolves and [Auth.currentAuthenticatedUser] then throws.  After any
    number [n] of them and nothing else, the flow is waiting for a code
    ([n + 1] waits so far), the listener has been started, no close is
    scheduled and nothing is written.  However many they were, a code
    accepted after them makes [kwiksetLogin] return, whatever is posted
    later: with the token of the record read in the loop in memory when
    the session can be read there, and with the record of the session
    fetched after the loop in the token file when that fetch gives one. *)
Theorem rejected_codes_are_retried_without_bound
    (constants : Constants) (config : Config) (api : Api) (world : World)
    (p : process) (bad : list Submission) :
  cached_session_absent_or_invalid world config api p ->
  custom_challenge_issued world config ->
  forallb rejected bad = true ->
  (forall n, (n <= length bad)%nat ->
     exists evs,
       kwiksetLogin constants config api
         (with_submissions world (firstn n bad)) p
       = (Pending, after p evs)
       /\ count is_Listen evs = 1%nat
       /\ existsb is_CloseAfter evs = false
       /\ existsb is_WriteFile evs = false
       /\ count is_AwaitCode evs = S n)
  /\ forall (good : Submission) (later : list Submission)
            (user user2 : CognitoUser) (c c2 : Credentials),
       accepted good = Some user ->
       getCredentialsFromSession user = Some c ->
       final_user world = Resolves user2 ->
       getCredentialsFromSession user2 = Some c2 ->
       exists evs,
         kwiksetLogin constants config api
           (with_submissions world (bad ++ good :: later)) p
         = (Returned (),
            mkProcess (Some (idToken c))
              (writeFileSync (disk p) (kwiksetSavePath api)
                 (JSON_stringify (Some c2)))
              (trace p ++ evs))
         /\ count is_Listen evs = 1%nat
         /\ count is_AwaitCode evs = S (length bad)
         /\ In (WriteFile (kwiksetSavePath api) (JSON_stringify (Some c2))) evs.
Proof.
  intros Hcache Hissued Hbad. split.
  - intros n Hn.
    destruct (kwiksetLogin_mfa constants config api
                (with_submissions world (firstn n bad)) p Hcache Hissued)
      as (e0 & E0 & L0 & C0 & W0 & A0).
    destruct (mfa_rejected_codes_wait api
                (with_submissions world (firstn n bad)) (after p e0)
                (firstn n bad) (forallb_firstn _ n _ Hbad))
      as (e1 & E1 & L1 & C1 & W1 & A1).
    exists (e0 ++ e1). rewrite E0. cbn [submissions with_submissions].
    rewrite E1, after_after. split; [reflexivity|].
    rewrite !count_app, !existsb_app, L0, C0, W0, C1, W1, A1.
    rewrite (count_none _ _ L1), (count_none _ _ A0), length_firstn.
    repeat split. lia.
  - intros good later user user2 c c2 Hgood Hc Hfin Hc2.
    destruct (kwiksetLogin_mfa constants config api
                (with_submissions world (bad ++ good :: later)) p
                Hcache Hissued)
      as (e0 & E0 & L0 & C0 & W0 & A0).
    destruct (mfa_accepted_code_completes api
                (with_submissions world (bad ++ good :: later)) (after p e0)
                bad later good user user2 Hbad Hgood Hfin)
      as (e1 & E1 & L1 & A1 & _ & Hw).
    exists (e0 ++ e1). rewrite E0. cbn [submissions with_submissions].
    rewrite E1, Hc, Hc2.
    cbn [after trace disk fmap option_fmap option_map].
    rewrite <- app_assoc. split; [reflexivity|].
    rewrite !count_app, L0, A1, (count_none _ _ A0), (count_none _ _ L1).
    rewrite Hc2 in Hw. split; [reflexivity|]. split; [reflexivity|].
    apply in_or_app. right. exact Hw.
Qed.

(** C10.  On the MFA success path the token file receives
    [JSON.stringify] of the record of the session fetched after the loop
    ([user2]), whatever the loop captured from [user]; the in-memory
    [idToken] comes from the record captured in the loop.  When the
    second fetch yields no session the file holds the text [null], which
    parses to [null], while the in-memory token is still the loop's. *)
Theorem persisted_record_comes_from_second_fetch
    (constants : Constants) (config : Config) (api : Api) (world : World)
    (p : process) (bad later : list Submission) (good : Submission)
    (user user2 : CognitoUser) :
  cached_session_absent_or_invalid world config api p ->
  custom_challenge_issued world config ->
  submissions world = bad ++ good :: later ->
  forallb rejected bad = true ->
  accepted good = Some user ->
  final_user world = Resolves user2 ->
  exists p',
    kwiksetLogin constants config api world p = (Returned (), p')
    /\ disk p'
       = writeFileSync (disk p) (kwiksetSavePath api)
           (JSON_stringify (getCredentialsFromSession user2))
    /\ mem_idToken p' = idToken <$> getCredentialsFromSession user
    /\ (getSession user2 = SessionError ->
        readFileSync (disk p') (kwiksetSavePath api) = Some (lit "null")
        /\ JSON_parse (lit "null") = Some JNull
        /\ forall c, getCredentialsFromSession user = Some c ->
                     mem_idToken p' = Some (idToken c)).
Proof.
  intros Hcache Hissued Hsubs Hbad Hgood Hfin.
  destruct (kwiksetLogin_mfa constants config api world p Hcache Hissued)
    as (e0 & E0 & _).
  destruct (mfa_accepted_code_completes api world (after p e0) bad later
              good user user2 Hbad Hgood Hfin) as (e1 & E1 & _).
  eexists. split; [rewrite E0, Hsubs; exact E1|].
  cbn [disk mem_idToken after]. split; [reflexivity|]. split; [reflexivity|].
  intros Herr. unfold getCredentialsFromSession at 1. rewrite Herr.
  split; [|split].
  - unfold readFileSync, writeFileSync. rewrite lookup_insert_eq.
    vm_compute. reflexivity.
  - vm_compute. reflexivity.
  - intros c ->. reflexivity.
Qed.

Lemma failed_sign_in_ends_unauthenticated_witness :
  exists evs,
    kwiksetLogin example_constants example_config example_api
      wrong_password_world fresh_process
    = (Returned (), after fresh_process evs)
    /\ existsb is_WriteFile evs = false
    /\ existsb is_Listen evs = false
    /\ count is_SignIn evs = 1%nat
    /\ In (Log Error
             (lit "Failed to log in: "
                ++ lit "NotAuthorizedException: Incorrect username or password."
                ++ lit " - Make sure your username and password are correct."))
          evs.
Proof.
  apply (failed_sign_in_ends_unauthenticated example_constants example_config
           example_api wrong_password_world fresh_process).
  - left. reflexivity.
  - reflexivity.
Defined.

Lemma unknown_challenge_ends_unauthenticated_witness :
  exists evs,
    kwiksetLogin example_constants example_config example_api totp_world
      fresh_process
    = (Returned (), mkProcess None ∅ evs)
    /\ existsb is_Listen evs = false
    /\ existsb is_WriteFile evs = false
    /\ In (Log Error (lit "Unknown auth challenge name SOFTWARE_TOKEN_MFA")) evs.
Proof.
  apply (unknown_challenge_ends_unauthenticated example_constants
           example_config example_api totp_world fresh_process
           (challenged "SOFTWARE_TOKEN_MFA")).
  - left. reflexivity.
  - reflexivity.
  - vm_compute. discriminate.
Defined.

Lemma rejected_codes_are_retried_without_bound_witness :
  (forall n, (n <= 2)%nat ->
     exists evs,
       kwiksetLogin example_constants example_config example_api
         (with_submissions mfa_world (firstn n [wrong_code; wrong_code]))
         fresh_process
       = (Pending, after fresh_process evs)
       /\ count is_Listen evs = 1%nat
       /\ existsb is_CloseAfter evs = false
       /\ existsb is_WriteFile evs = false
       /\ count is_AwaitCode evs = S n)
  /\ exists evs,
       kwiksetLogin example_constants example_config example_api mfa_world
         fresh_process
       = (Returned (),
          mkProcess (Some (lit "id.loop"))
            (writeFileSync ∅ (kwiksetSavePath example_api)
               (JSON_stringify (Some final_record)))
            evs)
       /\ count is_Listen evs = 1%nat
       /\ count is_AwaitCode evs = 3%nat
       /\ In (WriteFile (kwiksetSavePath example_api)
                (JSON_stringify (Some final_record))) evs.
Proof.
  destruct (rejected_codes_are_retried_without_bound example_constants
              example_config example_api mfa_world fresh_process
              [wrong_code; wrong_code])
    as [Hwait Hdone].
  - left. reflexivity.
  - exists (challenged "CUSTOM_CHALLENGE"). repeat split.
  - reflexivity.
  - split; [exact Hwait|].
    exact (Hdone right_code [] (signed_in loop_record)
             (signed_in final_record) loop_record final_record
             eq_refl eq_refl eq_refl eq_refl).
Defined.

(** C3 as it is worded, where it fails.  A wrong code that the provider
    refuses by failing the answer call (line 152, outside the [try]) is
    not retried: with the right code posted after it the login never
    settles, one wait for a code was registered and no second one, no
    post was answered, no token is set and nothing is written.  And an
    accepted code does not by itself authenticate and persist a record:
    when the session cannot be read inside the loop the login returns
    with [idToken] undefined; when the fetch after the loop fails the
    login is rejected with nothing written; when that fetch gives no
    session the token file holds the text [null]. *)
Lemma refused_code_is_not_retried :
  let run := kwiksetLogin example_constants example_config example_api in
  let events world :=
    run_events example_constants example_config example_api world
      fresh_process in
  (rejected refused_code = false
   /\ accepted refused_code = None
   /\ fst (run refused_world fresh_process) = Pending
   /\ count is_AwaitCode (events refused_world) = 1%nat
   /\ existsb is_Redirect (events refused_world) = false
   /\ existsb is_WriteFile (events refused_world) = false
   /\ mem_idToken (snd (run refused_world fresh_process)) = None)
  /\ (accepted sessionless_code = Some no_session
      /\ fst (run sessionless_world fresh_process) = Returned ()
      /\ mem_idToken (snd (run sessionless_world fresh_process)) = None)
  /\ (accepted right_code = Some (signed_in loop_record)
      /\ fst (run final_fetch_fails_world fresh_process)
         = Threw (lit "The user is not authenticated")
      /\ existsb is_WriteFile (events final_fetch_fails_world) = false
      /\ mem_idToken (snd (run final_fetch_fails_world fresh_process)) = None)
  /\ (fst (run second_fetch_fails_world fresh_process) = Returned ()
      /\ readFileSync
           (disk (snd (run second_fetch_fails_world fresh_process)))
           (kwiksetSavePath example_api)
         = Some (lit "null")).
Proof. vm_compute. repeat split. Qed.

Lemma persisted_record_comes_from_second_fetch_witness :
  exists p',
    kwiksetLogin example_constants example_config example_api
      second_fetch_fails_world fresh_process = (Returned (), p')
    /\ disk p' = writeFileSync ∅ (kwiksetSavePath example_api) (lit "null")
    /\ mem_idToken p' = Some (lit "id.loop")
    /\ (SessionError = SessionError ->
        readFileSync (disk p') (kwiksetSavePath example_api) = Some (lit "null")
        /\ JSON_parse (lit "null") = Some JNull
        /\ forall c, Some loop_record = Some c ->
                     mem_idToken p' = Some (idToken c)).
Proof.
  apply (persisted_record_comes_from_second_fetch example_constants
           example_config example_api second_fetch_fails_world fresh_process
           [wrong_code; wrong_code] [] right_code
           (signed_in loop_record) no_session).
  - left. reflexivity.
  - exists (challenged "CUSTOM_CHALLENGE"). repeat split.
  - reflexivity.
  - reflexivity.
  - reflexivity.
  - reflexivity.
Defined.

(* ================================================================= *)
(** ** Further properties: every run, failures, and the next start *)

Lemma forallb_weaken (f g : event -> bool) (evs : list event) :
  (forall e, f e = true -> g e = true) ->
  forallb f evs = true -> forallb g evs = true.
Proof.
  intros Hfg. induction evs as [|e evs IH]; [reflexivity|]. simpl. intros H.
  apply andb_prop in H as [He H]. rewrite (Hfg e He), (IH H). reflexivity.
Qed.

Lemma verify_loop_shape (subs : list Submission) (p : process) :
  exists evs,
    snd (verify_loop subs p) = after p evs
    /\ forallb loop_event evs = true
    /\ match fst (verify_loop subs p) with
       | Returned credentials =>
           count is_CloseAfter evs = 1%nat
           /\ exists bad good later user,
                subs = bad ++ good :: later
                /\ forallb rejected bad = true
                /\ accepted good = Some user
                /\ credentials = getCredentialsFromSession user
       | Threw _ => False
       | Pending => existsb is_CloseAfter evs = false
       end.
Proof.
  revert p. induction subs as [|sub later IH]; intros p.
  - exists [AwaitCode]. repeat split; reflexivity.
  - destruct (rejected sub) eqn:Hrej.
    + destruct (verify_loop_rejected sub later p Hrej) as (e1 & E1 & R1 & _).
      destruct (IH (after p e1)) as (e2 & E2 & L2 & S2).
      exists (e1 ++ e2). rewrite E1, E2, after_after.
      split; [reflexivity|]. split.
      * rewrite forallb_app, L2, andb_true_r.
        apply (forallb_weaken retry_event); [|exact R1].
        intros e He. unfold loop_event. rewrite He. reflexivity.
      * assert (C1 : existsb is_CloseAfter e1 = false).
        { apply (none_of _ retry_event); [other_kind | exact R1]. }
        destruct (fst (verify_loop later (after p e1))) as [cr|err|].
        -- destruct S2 as (C2 & bad & good & later' & user & -> & Hb & Hg & ->).
           split.
           ++ rewrite count_app, (count_none _ _ C1), C2. reflexivity.
           ++ exists (sub :: bad), good, later', user. repeat split; auto.
              simpl. rewrite Hrej. exact Hb.
        -- exact S2.
        -- rewrite existsb_app, C1, S2. reflexivity.
    + unfold rejected in Hrej. cbn [verify_loop]. run.
      destruct (verify_answer sub) as [[]|err] eqn:Hv.
      * destruct (authenticated_user sub) as [u|err] eqn:Ha; [|discriminate].
        run. eexists. split; [reflexivity|]. split; [reflexivity|].
        split; [reflexivity|].
        exists [], sub, later, u. unfold accepted. rewrite Hv, Ha. auto.
      * run. eexists. repeat split.
Qed.

(** Close a path goal with a constructor whose process is the goal's up
    to the grouping of the appended events. *)
Ltac by_path c :=
  let H := fresh "Hpath" in
  pose proof c as H;
  match type of H with
  | _ _ ?q' =>
      match goal with
      | |- _ _ ?q =>
          replace q with q';
          [ exact H
          | unfold after, reauth_events, listen_events, complete_events,
              startup_events, stored_call;
            cbn [mem_idToken disk trace app];
            rewrite <- ?app_assoc; cbn [app]; reflexivity ]
      end
  end.

Lemma reauthenticate_path (config : Config) (api : Api) (world : World)
    (p : process) :
  reauth_path config api world p
    (fst (reauthenticate config api world p))
    (snd (reauthenticate config api world p)).
Proof.
  destruct (Auth_signIn world (email config) (password config))
    as [user|err] eqn:Hsign.
  2:{ rewrite (reauthenticate_signIn_fails _ _ _ _ err) by assumption.
      cbn [fst snd]. by_path (signin_fails config api world p err Hsign). }
  destruct (decide (challengeName user = Some (lit "CUSTOM_CHALLENGE")))
    as [Hch|Hch].
  2:{ rewrite (reauthenticate_unknown_challenge _ _ _ _ user) by assumption.
      cbn [fst snd].
      by_path (challenge_unknown config api world p user Hsign Hch). }
  rewrite (reauthenticate_custom_challenge _ _ _ _ user) by assumption.
  destruct (generate_code world) as [[]|err] eqn:Hgen.
  2:{ unfold mfa_challenge. rewrite run_bind, run_emit, run_bind, Hgen.
      cbn [await throw fst snd]. rewrite after_after.
      by_path (generate_fails config api world p user err Hsign Hch Hgen). }
  assert (Hissued : custom_challenge_issued world config)
    by (exists user; auto).
  rewrite mfa_challenge_listens by assumption. rewrite after_after, run_bind.
  match goal with
  | |- context [verify_loop ?subs ?q] =>
      destruct (verify_loop_shape subs q) as (ev & E & L & R);
      destruct (verify_loop subs q) as [o p2]
  end.
  cbn [fst snd] in E, R. subst p2.
  destruct o as [credentials|err|].
  - destruct R as (C & bad & good & later & u & Hsubs & Hbad & Hgood & ->).
    rewrite after_after.
    destruct (final_user world) as [user2|err] eqn:Hfin.
    + rewrite (mfa_complete_saves _ _ _ _ user2) by assumption.
      cbn [fst snd].
      by_path (challenge_completed config api world p ev bad good later u
                 user2 Hissued L C Hsubs Hbad Hgood Hfin).
    + unfold mfa_complete. run. rewrite Hfin. cbn [await throw fst snd].
      by_path (final_fetch_fails config api world p ev err Hissued L C Hfin).
  - destruct R.
  - rewrite after_after. cbn [fst snd].
    by_path (loop_waits config api world p ev Hissued L R).
Qed.

Lemma kwiksetLogin_path (constants : Constants) (config : Config) (api : Api)
    (world : World) (p : process) :
  login_path constants config api world p
    (fst (kwiksetLogin constants config api world p))
    (snd (kwiksetLogin constants config api world p)).
Proof.
  destruct (disk p !! kwiksetSavePath api) as [content|] eqn:Hfile.
  2:{ rewrite kwiksetLogin_no_file by exact Hfile.
      apply file_absent; [exact Hfile | apply reauthenticate_path]. }
  destruct (JSON_parse (utf8_decode content)) as [v|] eqn:Hv.
  2:{ unfold kwiksetLogin. run.
      rewrite (load_present _ _ content) by exact Hfile. rewrite Hv.
      cbn [fst snd].
      by_path (file_malformed constants config api world p content Hfile Hv). }
  rewrite (kwiksetLogin_file _ _ _ _ _ content v) by assumption.
  rewrite run_bind.
  destruct (truthy (Some v)) eqn:Ht.
  2:{ unfold cached_login. rewrite Ht. cbn [mret M_ret].
      apply (file_falsy _ _ _ _ _ content v); try assumption.
      apply reauthenticate_path. }
  destruct (stored_user world (email config)
              (get_property v (lit "idToken"))
              (get_property v (lit "accessToken"))
              (get_property v (lit "refreshToken"))) as [user|err] eqn:Hu.
  2:{ unfold cached_login. rewrite Ht.
      unfold logInWithStoredCreds. run. cbn [mbind option_bind]. rewrite Hu.
      cbn [await throw fst snd].
      by_path (restore_throws constants config api world p content v err
                 Hfile Hv Ht Hu). }
  rewrite (cached_login_session _ _ _ _ user) by assumption.
  rewrite after_after.
  destruct (getCredentialsFromSession user) as [c|] eqn:Hc.
  - rewrite run_finish. cbn [fst snd].
    by_path (session_restored constants config api world p content v user c
               Hfile Hv Ht Hu Hc).
  - apply (session_refused _ _ _ _ _ content v user); try assumption.
    + unfold getCredentialsFromSession in Hc.
      destruct (getSession user); [reflexivity | discriminate].
    + apply reauthenticate_path.
Qed.

Lemma run_events_of (constants : Constants) (config : Config) (api : Api)
    (world : World) (p : process) (evs : list event) :
  trace (snd (kwiksetLogin constants config api world p)) = trace p ++ evs ->
  run_events constants config api world p = evs.
Proof.
  intros H. unfold run_events. rewrite H. apply drop_app_length.
Qed.

Lemma count_existsb (f : event -> bool) (evs : list event) (n : nat) :
  count f evs = S n -> existsb f evs = true.
Proof.
  unfold count. induction evs as [|e evs IH]; [discriminate|]. simpl.
  destruct (f e); [reflexivity|]. exact IH.
Qed.

Lemma loop_event_none (f : event -> bool) (evs : list event) :
  (forall e, loop_event e = true -> f e = false) ->
  forallb loop_event evs = true ->
  existsb f evs = false /\ count f evs = 0%nat.
Proof.
  intros Hf H. assert (E : existsb f evs = false) by exact (none_of f _ evs Hf H).
  split; [exact E | apply count_none, E].
Qed.

(** Split a run into its paths and lay out the events of each. *)
Ltac every_path constants config api world p :=
  let Hp := fresh "Hp" in
  pose proof (kwiksetLogin_path constants config api world p) as Hp;
  unfold run_events in *;
  destruct (kwiksetLogin constants config api world p) as [o p'];
  cbn [fst snd] in *;
  destruct Hp;
  try match goal with
      | H : reauth_path _ _ _ _ _ _ |- _ => destruct H
      end;
  cbn [after trace disk mem_idToken] in *;
  rewrite <- ?app_assoc in *;
  rewrite ?drop_app_length in *.

(** What the loop's events are not. *)
Ltac loop_facts :=
  repeat match goal with
  | H : forallb loop_event ?evs = true |- _ =>
      let L := fresh "L" in let S := fresh "S" in let W := fresh "W" in
      let T := fresh "T" in
      destruct (loop_event_none is_Listen evs ltac:(other_kind) H) as [L ?];
      destruct (loop_event_none is_SignIn evs ltac:(other_kind) H) as [S ?];
      destruct (loop_event_none is_WriteFile evs ltac:(other_kind) H) as [W ?];
      destruct (loop_event_none is_StoredSession evs ltac:(other_kind) H)
        as [T ?];
      clear H
  | H : count is_CloseAfter ?evs = 1%nat |- _ =>
      let C := fresh "C" in
      pose proof (count_existsb _ _ _ H) as C;
      revert H
  end; intros.

Ltac event_lists :=
  unfold startup_events, reauth_events, listen_events, complete_events,
    stored_call in *;
  rewrite ?existsb_app, ?count_app in *;
  cbn [existsb orb is_Listen is_WriteFile is_CloseAfter is_StoredSession
       is_SignIn is_AwaitCode] in *.



(** X14.  In every run, the listener is started and left without a scheduled
    close exactly when the login never settles. *)
Theorem listener_left_open_iff_pending
    (constants : Constants) (config : Config) (api : Api) (world : World)
    (p : process) :
  fst (kwiksetLogin constants config api world p) = Pending
  <-> existsb is_Listen (run_events constants config api world p) = true
      /\ existsb is_CloseAfter (run_events constants config api world p) = false.
Proof.
  every_path constants config api world p; loop_facts; event_lists.
  all: repeat match goal with
       | H : existsb _ _ = _ |- _ => rewrite H
       end.
  all: split;
    [ try discriminate; intros _; split; reflexivity
    | let A := fresh in let B := fresh in
      intros [A B]; try discriminate; reflexivity ].
Qed.

(** X15.  No run restores a session, signs in, starts the listener or writes
    the token file more than once: each of these calls stands outside
    the loop. *)
Theorem restore_sign_in_listen_write_at_most_once
    (constants : Constants) (config : Config) (api : Api) (world : World)
    (p : process) :
  let evs := run_events constants config api world p in
  (count is_StoredSession evs <= 1)%nat
  /\ (count is_SignIn evs <= 1)%nat
  /\ (count is_Listen evs <= 1)%nat
  /\ (count is_WriteFile evs <= 1)%nat.
Proof.
  cbn zeta.
  every_path constants config api world p; loop_facts; event_lists;
    repeat match goal with
    | H : count _ _ = _ |- _ => rewrite H
    end;
    cbn; lia.
Qed.

(** X16.  In every run the token file is written only if the close of the
    listener was scheduled, that only if the listener was started, and
    that only if the password sign-in was called. *)
Theorem write_needs_close_needs_listener_needs_sign_in
    (constants : Constants) (config : Config) (api : Api) (world : World)
    (p : process) :
  let evs := run_events constants config api world p in
  (existsb is_WriteFile evs = true -> existsb is_CloseAfter evs = true)
  /\ (existsb is_CloseAfter evs = true -> existsb is_Listen evs = true)
  /\ (existsb is_Listen evs = true -> existsb is_SignIn evs = true).
Proof.
  cbn zeta.
  every_path constants config api world p; loop_facts; event_lists;
    repeat match goal with
    | H : existsb _ _ = _ |- _ => rewrite H
    end;
    cbn; repeat split; intros; first [assumption | reflexivity | discriminate].
Qed.

(** X17.  [kwiksetLogin] leaves every file other than the token file as it was. *)
Theorem only_the_token_file_is_touched
    (constants : Constants) (config : Config) (api : Api) (world : World)
    (p : process) (file : jsstring) :
  file <> kwiksetSavePath api ->
  disk (snd (kwiksetLogin constants config api world p)) !! file
  = disk p !! file.
Proof.
  intros Hfile.
  every_path constants config api world p; try reflexivity.
  all: unfold writeFileSync; apply lookup_insert_ne; congruence.
Qed.

Lemma only_the_token_file_is_touched_witness :
  disk (snd (kwiksetLogin example_constants example_config example_api
               mfa_world fresh_process)) !! lit "/var/lib/homebridge/config.json"
  = None.
Proof.
  apply (only_the_token_file_is_touched example_constants example_config
           example_api mfa_world fresh_process
           (lit "/var/lib/homebridge/config.json")).
  vm_compute. discriminate.
Defined.

(** X18.  Either the token file is malformed and the run is rejected after its
    first log line, or the run starts with the same four events, among
    them [Amplify.configure], before anything else is called. *)
Theorem amplify_is_configured_first
    (constants : Constants) (config : Config) (api : Api) (world : World)
    (p : process) :
  let evs := run_events constants config api world p in
  (evs = [Log Debug (lit "Storage path: " ++ kwiksetSavePath api)]
   /\ exists err, fst (kwiksetLogin constants config api world p) = Threw err)
  \/ exists rest, evs = startup_events constants api ++ rest.
Proof.
  cbn zeta.
  every_path constants config api world p;
    first [ left; split; [reflexivity | eexists; reflexivity]
          | right; eexists; reflexivity ].
Qed.

(** X1.  When the token file exists and its text is not JSON, [JSON.parse]
    throws: [kwiksetLogin] is rejected after the first log line, with
    memory and disk as they were and no call to the provider. *)
Theorem malformed_token_file_stops_login
    (constants : Constants) (config : Config) (api : Api) (world : World)
    (p : process) (content : bytes) :
  disk p !! kwiksetSavePath api = Some content ->
  JSON_parse (utf8_decode content) = None ->
  exists err,
    kwiksetLogin constants config api world p
    = (Threw err,
       after p [Log Debug (lit "Storage path: " ++ kwiksetSavePath api)]).
Proof.
  intros Hfile Hv. exists (lit "SyntaxError").
  unfold kwiksetLogin. run.
  rewrite (load_present _ _ content) by exact Hfile. rewrite Hv. reflexivity.
Qed.

Lemma malformed_token_file_stops_login_witness :
  exists err,
    kwiksetLogin example_constants example_config example_api mfa_world
      process_with_broken_file
    = (Threw err,
       after process_with_broken_file
         [Log Debug (lit "Storage path: " ++ kwiksetSavePath example_api)]).
Proof.
  apply (malformed_token_file_stops_login example_constants example_config
           example_api mfa_world process_with_broken_file
           (utf8_encode (lit "{"))).
  - vm_compute. reflexivity.
  - vm_compute. reflexivity.
Defined.

(** X2.  [logInWithStoredCreds] is awaited outside any [try]: when building the
    user from the stored tokens throws, [kwiksetLogin] is rejected with
    that error; the password sign-in is not tried and no listener is
    started. *)
Theorem restore_exception_propagates
    (constants : Constants) (config : Config) (api : Api) (world : World)
    (p : process) (content : bytes) (v : jsval) (err : jsstring) :
  disk p !! kwiksetSavePath api = Some content ->
  JSON_parse (utf8_decode content) = Some v ->
  truthy (Some v) = true ->
  stored_user world (email config)
    (get_property v (lit "idToken")) (get_property v (lit "accessToken"))
    (get_property v (lit "refreshToken")) = Rejects err ->
  exists evs,
    kwiksetLogin constants config api world p = (Threw err, after p evs)
    /\ existsb is_SignIn evs = false
    /\ existsb is_Listen evs = false.
Proof.
  intros Hfile Hv Ht Hu. eexists. split; [|split].
  - rewrite (kwiksetLogin_file _ _ _ _ _ content v) by assumption.
    rewrite run_bind. unfold cached_login. rewrite Ht.
    unfold logInWithStoredCreds. run. cbn [mbind option_bind]. rewrite Hu.
    cbn [await throw]. reflexivity.
  - reflexivity.
  - reflexivity.
Qed.

Lemma restore_exception_propagates_witness :
  exists evs,
    kwiksetLogin example_constants example_config example_api
      restore_throws_world process_with_token_file
    = (Threw (lit "TypeError: token.split is not a function"),
       after process_with_token_file evs)
    /\ existsb is_SignIn evs = false
    /\ existsb is_Listen evs = false.
Proof.
  apply (restore_exception_propagates example_constants example_config
           example_api restore_throws_world process_with_token_file
           (utf8_encode (JSON_stringify (Some cached_record)))
           (credentials_object cached_record)).
  - vm_compute. reflexivity.
  - vm_compute. reflexivity.
  - reflexivity.
  - reflexivity.
Defined.

(** X6.  The request to send a one-time code (line 118) is awaited outside any
    [try]: when it fails, [kwiksetLogin] is rejected with that error
    after one sign-in call, memory and disk as they were, and the
    listener is not started. *)
Theorem generate_code_failure_propagates
    (constants : Constants) (config : Config) (api : Api) (world : World)
    (p : process) (user : CognitoUser) (err : jsstring) :
  cached_session_absent_or_invalid world config api p ->
  Auth_signIn world (email config) (password config) = Resolves user ->
  challengeName user = Some (lit "CUSTOM_CHALLENGE") ->
  generate_code world = Rejects err ->
  exists evs,
    kwiksetLogin constants config api world p = (Threw err, after p evs)
    /\ existsb is_Listen evs = false
    /\ count is_SignIn evs = 1%nat.
Proof.
  intros Hcache Hsign Hch Hgen.
  destruct (kwiksetLogin_without_cached_session constants _ _ _ _ Hcache)
    as (e0 & E0 & S0).
  eexists. split; [|split].
  - rewrite E0, (reauthenticate_custom_challenge _ _ _ _ user) by assumption.
    unfold mfa_challenge. rewrite run_bind, run_emit, run_bind, Hgen.
    cbn [await throw]. rewrite !after_after. reflexivity.
  - rewrite existsb_app, (none_of is_Listen startup_event e0);
      [reflexivity | other_kind | exact S0].
  - rewrite count_app, (count_none is_SignIn e0); [reflexivity|].
    apply (none_of _ startup_event); [other_kind | exact S0].
Qed.

Lemma generate_code_failure_propagates_witness :
  exists evs,
    kwiksetLogin example_constants example_config example_api
      generate_fails_world fresh_process
    = (Threw (lit "NetworkError"), after fresh_process evs)
    /\ existsb is_Listen evs = false
    /\ count is_SignIn evs = 1%nat.
Proof.
  apply (generate_code_failure_propagates example_constants example_config
           example_api generate_fails_world fresh_process
           (challenged "CUSTOM_CHALLENGE")).
  - left. reflexivity.
  - reflexivity.
  - reflexivity.
  - reflexivity.
Defined.

(** X7.  When the code is accepted but [Auth.currentAuthenticatedUser] fails
    after the loop (line 172), [kwiksetLogin] is rejected: the browser
    was already sent to the success page and the close is scheduled,
    yet nothing is written and the in-memory [idToken] is not set. *)
Theorem final_fetch_failure_after_accepted_code
    (constants : Constants) (config : Config) (api : Api) (world : World)
    (p : process) (bad later : list Submission) (good : Submission)
    (user : CognitoUser) (err : jsstring) :
  cached_session_absent_or_invalid world config api p ->
  custom_challenge_issued world config ->
  submissions world = bad ++ good :: later ->
  forallb rejected bad = true ->
  accepted good = Some user ->
  final_user world = Rejects err ->
  exists evs,
    kwiksetLogin constants config api world p = (Threw err, after p evs)
    /\ In (Redirect (lit "/success.html")) evs
    /\ In (CloseAfter 7000) evs
    /\ existsb is_WriteFile evs = false.
Proof.
  intros Hcache Hissued Hsubs Hbad Hgood Hfin.
  destruct (kwiksetLogin_mfa constants config api world p Hcache Hissued)
    as (e0 & E0 & _ & _ & W0 & _).
  destruct (verify_loop_rejects bad (good :: later) (after p e0) Hbad)
    as (e1 & E1 & R1 & _).
  destruct (verify_loop_accepted good later (after (after p e0) e1) user Hgood)
    as (e2 & E2 & _ & W2 & _ & Hredirect & Hclose).
  exists (e0 ++ e1 ++ e2 ++ [Log Info (lit "Code verified!");
                             CurrentAuthenticatedUser]).
  split; [|split; [|split]].
  - rewrite E0, Hsubs, run_bind, E1, E2. unfold mfa_complete. run.
    rewrite Hfin. cbn [await throw]. rewrite ?after_after, <- ?app_assoc.
    reflexivity.
  - apply in_or_app. right. apply in_or_app. right. apply in_or_app. left.
    exact Hredirect.
  - apply in_or_app. right. apply in_or_app. right. apply in_or_app. left.
    exact Hclose.
  - rewrite !existsb_app, W0, W2, (none_of is_WriteFile retry_event e1);
      [reflexivity | other_kind | exact R1].
Qed.

Lemma final_fetch_failure_after_accepted_code_witness :
  exists evs,
    kwiksetLogin example_constants example_config example_api
      final_fetch_fails_world fresh_process
    = (Threw (lit "The user is not authenticated"), after fresh_process evs)
    /\ In (Redirect (lit "/success.html")) evs
    /\ In (CloseAfter 7000) evs
    /\ existsb is_WriteFile evs = false.
Proof.
  apply (final_fetch_failure_after_accepted_code example_constants
           example_config example_api final_fetch_fails_world fresh_process
           [wrong_code; wrong_code] [] right_code (signed_in loop_record)).
  - left. reflexivity.
  - exists (challenged "CUSTOM_CHALLENGE"). repeat split.
  - reflexivity.
  - reflexivity.
  - reflexivity.
  - reflexivity.
Defined.

Lemma verify_loop_rejected_detail (sub : Submission)
    (later : list Submission) (p : process) :
  rejected sub = true ->
  exists evs,
    verify_loop (sub :: later) p = verify_loop later (after p evs)
    /\ forallb retry_event evs = true
    /\ count is_AwaitCode evs = 1%nat
    /\ count is_Redirect evs = 1%nat
    /\ In (input_log sub) evs
    /\ In (answer_call sub) evs.
Proof.
  unfold rejected. intros Hrej.
  destruct (verify_answer sub) as [[]|] eqn:Hv; [|discriminate].
  destruct (authenticated_user sub) as [|err] eqn:Ha; [discriminate|].
  eexists. split; [|split; [|split; [|split; [|split]]]].
  - cbn [verify_loop]. rewrite Hv, Ha. run. reflexivity.
  - reflexivity.
  - reflexivity.
  - reflexivity.
  - simpl. tauto.
  - simpl. tauto.
Qed.

Lemma verify_loop_rejects_detail (bad rest : list Submission) (p : process) :
  forallb rejected bad = true ->
  exists evs,
    verify_loop (bad ++ rest) p = verify_loop rest (after p evs)
    /\ forallb retry_event evs = true
    /\ count is_AwaitCode evs = length bad
    /\ count is_Redirect evs = length bad
    /\ forall sub, In sub bad ->
         In (input_log sub) evs /\ In (answer_call sub) evs.
Proof.
  revert p. induction bad as [|sub bad IH]; intros p Hbad.
  - exists []. rewrite after_nil.
    split; [reflexivity|]. split; [reflexivity|]. split; [reflexivity|].
    split; [reflexivity|]. intros s [].
  - simpl in Hbad. apply andb_prop in Hbad as [Hsub Hbad].
    destruct (verify_loop_rejected_detail sub (bad ++ rest) p Hsub)
      as (e1 & E1 & Q1 & A1 & D1 & I1 & S1).
    destruct (IH (after p e1) Hbad) as (e2 & E2 & Q2 & A2 & D2 & I2).
    exists (e1 ++ e2). rewrite <- after_after.
    split; [|split; [|split; [|split]]].
    + rewrite <- app_comm_cons, E1. exact E2.
    + rewrite forallb_app, Q1, Q2. reflexivity.
    + rewrite count_app, A1, A2. reflexivity.
    + rewrite count_app, D1, D2. reflexivity.
    + intros s [<-|Hs].
      * split; apply in_or_app; left; assumption.
      * destruct (I2 s Hs). split; apply in_or_app; right; assumption.
Qed.

(** Two processes that differ in the grouping of the appended events. *)
Ltac same_process :=
  rewrite ?after_after;
  unfold after, reauth_events, listen_events, complete_events,
    startup_events, stored_call, input_log, answer_call;
  cbn [mem_idToken disk trace];
  repeat (progress (rewrite <- ?app_assoc; cbn [app])); reflexivity.

(** X8.  When the call that submits a code fails (line 152, outside the [try]),
    the login never settles: the rejection is unhandled, that post gets
    no reply, no further wait for a code is registered whatever is
    posted later, and the listener is never closed. *)
Theorem answer_call_failure_stalls_login
    (constants : Constants) (config : Config) (api : Api) (world : World)
    (p : process) (bad later : list Submission) (sub : Submission)
    (err : jsstring) :
  cached_session_absent_or_invalid world config api p ->
  custom_challenge_issued world config ->
  submissions world = bad ++ sub :: later ->
  forallb rejected bad = true ->
  verify_answer sub = Rejects err ->
  exists evs,
    kwiksetLogin constants config api world p = (Pending, after p evs)
    /\ In (UnhandledRejection err) evs
    /\ existsb is_CloseAfter evs = false
    /\ count is_AwaitCode evs = S (length bad)
    /\ count is_Redirect evs = length bad.
Proof.
  intros Hcache (user & Hsign & Hch & Hgen) Hsubs Hbad Hv.
  destruct (kwiksetLogin_without_cached_session constants _ _ _ _ Hcache)
    as (e0 & E0 & S0).
  match type of E0 with
  | _ = reauthenticate _ _ _ ?q =>
      destruct (verify_loop_rejects_detail bad (sub :: later)
                  (after (after q (reauth_events config))
                         (listen_events config world)) Hbad)
        as (e1 & E1 & R1 & A1 & D1 & _)
  end.
  exists (e0 ++ reauth_events config ++ listen_events config world ++ e1
            ++ [AwaitCode; input_log sub; answer_call sub;
                UnhandledRejection err]).
  split; [|split; [|split; [|split]]].
  - rewrite E0, (reauthenticate_custom_challenge _ _ _ _ user) by assumption.
    rewrite mfa_challenge_listens by assumption.
    rewrite Hsubs, run_bind. unfold reauth_events, listen_events in E1.
    rewrite E1. cbn [verify_loop]. rewrite Hv. run. same_process.
  - apply in_or_app. right. apply in_or_app. right. apply in_or_app. right.
    apply in_or_app. right. simpl. tauto.
  - rewrite !existsb_app, (none_of is_CloseAfter startup_event e0),
      (none_of is_CloseAfter retry_event e1);
      [reflexivity | other_kind | exact R1 | other_kind | exact S0].
  - rewrite !count_app, (count_none is_AwaitCode e0), A1; [cbn; lia|].
    apply (none_of _ startup_event); [other_kind | exact S0].
  - rewrite !count_app, (count_none is_Redirect e0), D1; [cbn; lia|].
    apply (none_of _ startup_event); [other_kind | exact S0].
Qed.

Lemma answer_call_failure_stalls_login_witness :
  exists evs,
    kwiksetLogin example_constants example_config example_api stalling_world
      fresh_process
    = (Pending, after fresh_process evs)
    /\ In (UnhandledRejection (lit "NetworkError")) evs
    /\ existsb is_CloseAfter evs = false
    /\ count is_AwaitCode evs = 2%nat
    /\ count is_Redirect evs = 1%nat.
Proof.
  apply (answer_call_failure_stalls_login example_constants example_config
           example_api stalling_world fresh_process
           [wrong_code] [right_code] stalling_code).
  - left. reflexivity.
  - exists (challenged "CUSTOM_CHALLENGE"). repeat split.
  - reflexivity.
  - reflexivity.
  - reflexivity.
Defined.

Lemma loop_then_complete_extends (api : Api) (world : World)
    (subs : list Submission) (q : process) :
  exists evs,
    trace (snd ((verify_loop subs ≫= mfa_complete api world) q))
    = trace q ++ evs.
Proof.
  rewrite run_bind.
  destruct (verify_loop_shape subs q) as (ev & E & _ & R).
  destruct (verify_loop subs q) as [o q']. cbn [fst snd] in E, R. subst q'.
  destruct o as [cr|err|].
  - destruct (final_user world) as [user2|err] eqn:Hfin.
    + rewrite (mfa_complete_saves _ _ _ _ user2) by assumption.
      cbn [snd trace after]. rewrite <- ?app_assoc. eexists. reflexivity.
    + unfold mfa_complete. run. rewrite Hfin.
      cbn [await throw snd trace after]. rewrite <- ?app_assoc.
      eexists. reflexivity.
  - destruct R.
  - eexists. reflexivity.
Qed.

Lemma round_then_complete_extends (api : Api) (world : World)
    (sub : Submission) (later : list Submission) (q : process) :
  exists evs,
    trace (snd ((verify_loop (sub :: later) ≫= mfa_complete api world) q))
    = trace q ++ [AwaitCode; input_log sub; answer_call sub] ++ evs.
Proof.
  assert (Hend : forall l : list event,
            exists evs,
              trace q ++ AwaitCode :: input_log sub :: answer_call sub :: l
              = trace q ++ [AwaitCode; input_log sub; answer_call sub] ++ evs)
    by (intros l; exists l; reflexivity).
  rewrite run_bind. cbn [verify_loop]. run.
  destruct (verify_answer sub) as [[]|e] eqn:Hv.
  - destruct (authenticated_user sub) as [u|e'] eqn:Ha.
    + run. destruct (final_user world) as [user2|err2] eqn:Hfin.
      * rewrite (mfa_complete_saves _ _ _ _ user2) by assumption.
        cbn [snd trace after].
        repeat (progress (rewrite <- ?app_assoc; cbn [app])). apply Hend.
      * unfold mfa_complete. run. rewrite Hfin.
        cbn [await throw snd trace after].
        repeat (progress (rewrite <- ?app_assoc; cbn [app])). apply Hend.
    + run.
      match goal with
      | |- context [verify_loop later ?q1] =>
          destruct (loop_then_complete_extends api world later q1) as (ev & E)
      end.
      rewrite run_bind in E. rewrite E. cbn [trace after].
      repeat (progress (rewrite <- ?app_assoc; cbn [app])). apply Hend.
  - run. cbn [snd trace after]. apply Hend.
Qed.

(** X10.  Every code the loop processes is written to the log at info level and
    sent to the provider inside the answer text, as [`${code}`] gives it
    (a post without the field gives the text [undefined]). *)
Theorem submitted_codes_are_logged_and_sent
    (constants : Constants) (config : Config) (api : Api) (world : World)
    (p : process) (bad later : list Submission) (sub : Submission) :
  cached_session_absent_or_invalid world config api p ->
  custom_challenge_issued world config ->
  submissions world = bad ++ sub :: later ->
  forallb rejected bad = true ->
  forall s, In s (bad ++ [sub]) ->
    In (input_log s) (run_events constants config api world p)
    /\ In (answer_call s) (run_events constants config api world p).
Proof.
  intros Hcache (user & Hsign & Hch & Hgen) Hsubs Hbad s Hs.
  destruct (kwiksetLogin_without_cached_session constants _ _ _ _ Hcache)
    as (e0 & E0 & S0).
  set (q := after (after (after p e0) (reauth_events config))
                  (listen_events config world)).
  destruct (verify_loop_rejects_detail bad (sub :: later) q Hbad)
    as (e1 & E1 & _ & _ & _ & I1).
  destruct (round_then_complete_extends api world sub later (after q e1))
    as (e2 & E2).
  assert (Hrun : run_events constants config api world p
                 = e0 ++ reauth_events config ++ listen_events config world
                     ++ e1 ++ [AwaitCode; input_log sub; answer_call sub]
                     ++ e2).
  { apply run_events_of.
    rewrite E0, (reauthenticate_custom_challenge _ _ _ _ user) by assumption.
    rewrite mfa_challenge_listens by assumption.
    rewrite Hsubs. fold (reauth_events config) (listen_events config world).
    fold q. rewrite run_bind, E1, <- run_bind, E2.
    unfold q. cbn [after trace]. rewrite <- !app_assoc. reflexivity. }
  rewrite Hrun. apply in_app_or in Hs as [Hs|[<-|[]]].
  - destruct (I1 s Hs) as [Hl Ha].
    split; apply in_or_app; right; apply in_or_app; right;
      apply in_or_app; right; apply in_or_app; left; assumption.
  - split; apply in_or_app; right; apply in_or_app; right;
      apply in_or_app; right; apply in_or_app; right; simpl; tauto.
Qed.

Lemma submitted_codes_are_logged_and_sent_witness :
  In (input_log sessionless_code)
     (run_events example_constants example_config example_api
        sessionless_world fresh_process)
  /\ In (answer_call sessionless_code)
        (run_events example_constants example_config example_api
           sessionless_world fresh_process).
Proof.
  apply (submitted_codes_are_logged_and_sent example_constants example_config
           example_api sessionless_world fresh_process
           [wrong_code] [] sessionless_code);
    [ left; reflexivity
    | exists (challenged "CUSTOM_CHALLENGE"); repeat split
    | reflexivity
    | reflexivity
    | simpl; tauto ].
Defined.

Example missing_code_field_is_sent_as_undefined :
  answer_call sessionless_code
  = SendCustomChallengeAnswer
      (lit "answerType:verifyCode,medium:phone,codeType:login,code:undefined")
  /\ input_log sessionless_code
     = Log Info (lit "Input received: undefined. Verifying...").
Proof. vm_compute. split; reflexivity. Qed.

Lemma header_Authorization (B : Type) (constants : Constants) (p : process)
    (opts : Opts B) :
  header (lit "Authorization") (fetch_headers (apiRequest constants p opts))
  = Some (lit "Bearer " ++ template (mem_idToken p)).
Proof.
  unfold apiRequest. cbn [fetch_headers].
  generalize (lit "Bearer " ++ template (mem_idToken p)). intros value.
  vm_compute. reflexivity.
Qed.



Lemma reauthenticate_events (config : Config) (api : Api) (world : World)
    (q : process) :
  exists evs,
    trace (snd (reauthenticate config api world q)) = trace q ++ evs
    /\ existsb is_StoredSession evs = false
    /\ count is_SignIn evs = 1%nat.
Proof.
  pose proof (reauthenticate_path config api world q) as Hp.
  destruct (reauthenticate config api world q) as [o q'].
  cbn [fst snd] in *. destruct Hp; cbn [after trace]; eexists;
    (split; [reflexivity|]); loop_facts; event_lists;
    repeat match goal with
    | H : existsb _ _ = _ |- _ => rewrite H
    | H : count _ _ = _ |- _ => rewrite H
    end; split; reflexivity.
Qed.

(** X3.  A token file whose JSON value is falsy ([null], [false], [0], an empty
    string) counts as no saved credentials: in every run the cached
    session is not tried and the password sign-in is called once. *)
Theorem falsy_token_file_skips_cached_session
    (constants : Constants) (config : Config) (api : Api) (world : World)
    (p : process) (content : bytes) (v : jsval) :
  disk p !! kwiksetSavePath api = Some content ->
  JSON_parse (utf8_decode content) = Some v ->
  truthy (Some v) = false ->
  existsb is_StoredSession (run_events constants config api world p) = false
  /\ count is_SignIn (run_events constants config api world p) = 1%nat.
Proof.
  intros Hfile Hv Ht.
  destruct (reauthenticate_events config api world
              (after p (startup_events constants api))) as (evs & E & S & C).
  assert (Hrun : run_events constants config api world p
                 = startup_events constants api ++ evs).
  { apply run_events_of.
    rewrite (kwiksetLogin_file _ _ _ _ _ content v) by assumption.
    rewrite run_bind. unfold cached_login. rewrite Ht. cbn [mret M_ret].
    rewrite E. cbn [after trace]. rewrite <- app_assoc. reflexivity. }
  rewrite Hrun, existsb_app, count_app, S, C. split; reflexivity.
Qed.

Lemma falsy_token_file_skips_cached_session_witness :
  existsb is_StoredSession
    (run_events example_constants example_config example_api mfa_world
       process_with_null_file) = false
  /\ count is_SignIn
       (run_events example_constants example_config example_api mfa_world
          process_with_null_file) = 1%nat.
Proof.
  apply (falsy_token_file_skips_cached_session example_constants
           example_config example_api mfa_world process_with_null_file
           (utf8_encode (lit "null")) JNull).
  - vm_compute. reflexivity.
  - vm_compute. reflexivity.
  - reflexivity.
Defined.

(** X11.  When the code is accepted but the session fetched inside the loop
    fails (line 158 yields [null]), the login still returns, logs
    [Logged in!] and writes the token file from the second fetch, but
    the in-memory [idToken] is undefined and the requests that follow
    carry [Bearer undefined]. *)
Theorem verified_code_without_session_leaves_requests_unauthenticated
    (B : Type) (constants : Constants) (config : Config) (api : Api)
    (world : World) (p : process) (bad later : list Submission)
    (good : Submission) (user user2 : CognitoUser) (opts : Opts B) :
  cached_session_absent_or_invalid world config api p ->
  custom_challenge_issued world config ->
  submissions world = bad ++ good :: later ->
  forallb rejected bad = true ->
  accepted good = Some user ->
  getSession user = SessionError ->
  final_user world = Resolves user2 ->
  let r := kwiksetLogin constants config api world p in
  fst r = Returned ()
  /\ mem_idToken (snd r) = None
  /\ disk (snd r) !! kwiksetSavePath api
     = Some (utf8_encode (JSON_stringify (getCredentialsFromSession user2)))
  /\ In (Log Info (lit "Logged in!")) (run_events constants config api world p)
  /\ header (lit "Authorization")
       (fetch_headers (apiRequest constants (snd r) opts))
     = Some (lit "Bearer undefined").
Proof.
  intros Hcache Hissued Hsubs Hbad Hgood Hnone Hfin r.
  destruct (kwiksetLogin_without_cached_session constants _ _ _ _ Hcache)
    as (e0 & E0 & _).
  destruct Hissued as (cu & Hsign & Hch & Hgen).
  set (q := after (after (after p e0) (reauth_events config))
                  (listen_events config world)).
  destruct (verify_loop_rejects bad (good :: later) q Hbad) as (e1 & E1 & _).
  destruct (verify_loop_accepted good later (after q e1) user Hgood)
    as (e2 & E2 & _).
  assert (Hr : r = (Returned (),
                    mkProcess None
                      (writeFileSync (disk p) (kwiksetSavePath api)
                         (JSON_stringify (getCredentialsFromSession user2)))
                      (trace p ++ e0 ++ reauth_events config
                         ++ listen_events config world ++ e1 ++ e2
                         ++ complete_events api
                              (getCredentialsFromSession user2)))).
  { unfold r.
    rewrite E0, (reauthenticate_custom_challenge _ _ _ _ cu) by assumption.
    rewrite mfa_challenge_listens by assumption.
    rewrite Hsubs. fold (reauth_events config) (listen_events config world).
    fold q. rewrite run_bind, E1, E2.
    rewrite (mfa_complete_saves _ _ _ _ user2) by assumption.
    unfold getCredentialsFromSession at 1. rewrite Hnone.
    unfold q. same_process. }
  assert (Hrun : run_events constants config api world p
                 = e0 ++ reauth_events config ++ listen_events config world
                     ++ e1 ++ e2
                     ++ complete_events api (getCredentialsFromSession user2)).
  { apply run_events_of. fold r. rewrite Hr. reflexivity. }
  rewrite Hrun, Hr. cbn [fst snd mem_idToken disk].
  split; [reflexivity|]. split; [reflexivity|]. split; [|split].
  - unfold writeFileSync. apply lookup_insert_eq.
  - do 5 (apply in_or_app; right). simpl. tauto.
  - rewrite header_Authorization. reflexivity.
Qed.

Lemma verified_code_without_session_leaves_requests_unauthenticated_witness :
  let r := kwiksetLogin example_constants example_config example_api
             sessionless_world fresh_process in
  fst r = Returned ()
  /\ mem_idToken (snd r) = None
  /\ disk (snd r) !! kwiksetSavePath example_api
     = Some (utf8_encode (JSON_stringify (Some final_record)))
  /\ In (Log Info (lit "Logged in!"))
        (run_events example_constants example_config example_api
           sessionless_world fresh_process)
  /\ header (lit "Authorization")
       (fetch_headers
          (apiRequest example_constants (snd r)
             (mkOpts (lit "lock/status") (lit "GET") (None : option jsstring))))
     = Some (lit "Bearer undefined").
Proof.
  apply (verified_code_without_session_leaves_requests_unauthenticated
           jsstring example_constants example_config example_api
           sessionless_world fresh_process [wrong_code] [] sessionless_code
           no_session (signed_in final_record)).
  - left. reflexivity.
  - exists (challenged "CUSTOM_CHALLENGE"). repeat split.
  - reflexivity.
  - reflexivity.
  - reflexivity.
  - reflexivity.
  - reflexivity.
Defined.

(** X12.  In a process that holds a token from an earlier login, a failed
    password sign-in returns before line 180 and the requests that
    follow still carry the old token, whereas an unknown challenge falls
    through to line 180 and they carry [Bearer undefined]. *)
Theorem failed_relogin_keeps_token_unknown_challenge_clears_it
    (B : Type) (constants : Constants) (config : Config) (api : Api)
    (world : World) (p : process) (t : jsstring) (opts : Opts B) :
  cached_session_absent_or_invalid world config api p ->
  mem_idToken p = Some t ->
  let p' := snd (kwiksetLogin constants config api world p) in
  (forall err,
     Auth_signIn world (email config) (password config) = Rejects err ->
     header (lit "Authorization") (fetch_headers (apiRequest constants p' opts))
     = Some (lit "Bearer " ++ t))
  /\ (forall user,
        Auth_signIn world (email config) (password config) = Resolves user ->
        challengeName user <> Some (lit "CUSTOM_CHALLENGE") ->
        header (lit "Authorization")
          (fetch_headers (apiRequest constants p' opts))
        = Some (lit "Bearer undefined")).
Proof.
  intros Hcache Ht p'.
  destruct (kwiksetLogin_without_cached_session constants _ _ _ _ Hcache)
    as (e0 & E0 & _).
  split.
  - intros err Hsign. rewrite header_Authorization. unfold p'.
    rewrite E0, (reauthenticate_signIn_fails _ _ _ _ err) by exact Hsign.
    cbn [snd after mem_idToken]. rewrite Ht. reflexivity.
  - intros user Hsign Hch. rewrite header_Authorization. unfold p'.
    rewrite E0, (reauthenticate_unknown_challenge _ _ _ _ user) by assumption.
    reflexivity.
Qed.

Lemma failed_relogin_keeps_token_unknown_challenge_clears_it_witness :
  let opts := mkOpts (lit "lock/status") (lit "GET") (None : option jsstring) in
  (forall err,
     Auth_signIn wrong_password_world (email example_config)
       (password example_config) = Rejects err ->
     header (lit "Authorization")
       (fetch_headers
          (apiRequest example_constants
             (snd (kwiksetLogin example_constants example_config example_api
                     wrong_password_world process_with_old_token)) opts))
     = Some (lit "Bearer id.old"))
  /\ (forall user,
        Auth_signIn wrong_password_world (email example_config)
          (password example_config) = Resolves user ->
        challengeName user <> Some (lit "CUSTOM_CHALLENGE") ->
        header (lit "Authorization")
          (fetch_headers
             (apiRequest example_constants
                (snd (kwiksetLogin example_constants example_config
                        example_api wrong_password_world
                        process_with_old_token)) opts))
        = Some (lit "Bearer undefined")).
Proof.
  apply (failed_relogin_keeps_token_unknown_challenge_clears_it jsstring
           example_constants example_config example_api wrong_password_world
           process_with_old_token (lit "id.old")).
  - left. reflexivity.
  - reflexivity.
Defined.

(** X4.  Whatever truthy value the token file holds, the session is restored
    from its properties [idToken], [accessToken] and [refreshToken] as
    they are read; from a value that is not an object all three are
    [undefined]. *)
Theorem token_file_value_is_read_by_property
    (constants : Constants) (config : Config) (api : Api) (world : World)
    (p : process) (content : bytes) (v : jsval) :
  disk p !! kwiksetSavePath api = Some content ->
  JSON_parse (utf8_decode content) = Some v ->
  truthy (Some v) = true ->
  In (StoredSession (email config)
        (get_property v (lit "idToken")) (get_property v (lit "accessToken"))
        (get_property v (lit "refreshToken")))
     (run_events constants config api world p)
  /\ ((forall members, v <> JObj members) ->
      In (StoredSession (email config) None None None)
         (run_events constants config api world p)).
Proof.
  intros Hfile Hv Ht.
  assert (Hin : In (stored_call config v)
                   (run_events constants config api world p)).
  { every_path constants config api world p;
      repeat match goal with
      | H : disk p !! kwiksetSavePath api = _ |- _ =>
          rewrite Hfile in H; first [discriminate | injection H as <-]
      | H : JSON_parse (utf8_decode content) = _ |- _ =>
          rewrite Hv in H; first [discriminate | injection H as <-]
      | H : truthy (Some v) = false |- _ => rewrite Ht in H; discriminate
      end;
      unfold startup_events; cbn [app In]; tauto. }
  split; [exact Hin|].
  intros Hobj. unfold stored_call in Hin.
  destruct v; try exact Hin. exfalso. eapply Hobj. reflexivity.
Qed.

Lemma token_file_value_is_read_by_property_witness :
  In (StoredSession (lit "user@example.com") None None None)
     (run_events example_constants example_config example_api mfa_world
        process_with_array_file)
  /\ ((forall members, JArr [JNum false 1 0] <> JObj members) ->
      In (StoredSession (lit "user@example.com") None None None)
         (run_events example_constants example_config example_api mfa_world
            process_with_array_file)).
Proof.
  apply (token_file_value_is_read_by_property example_constants example_config
           example_api mfa_world process_with_array_file
           (utf8_encode (lit "[1]")) (JArr [JNum false 1 0])).
  - vm_compute. reflexivity.
  - vm_compute. reflexivity.
  - reflexivity.
Defined.
